(** * Verification of the @carbon/themes SCSS generator
    (packages/themes/tasks/build.js)

    The generator reads the colour tokens and the themes of the package, a
    YAML document of token metadata, and writes three SCSS files: the token
    declarations, the [carbon--theme] mixin and the theme maps.

    The script is embedded shallowly.  Text is [string]; a JavaScript object
    with string keys is an association list in [Object.keys] order; the
    calls that leave the script ([fs], [console], the reporter, [prettier],
    [js-yaml]) are threaded through a state-and-exception monad over a
    [world] that holds the file system and the trace of those calls.  The
    parsed metadata is an object graph, [Document.t]: [transformMetadata]
    writes into the objects and arrays of the document, and a YAML anchor
    puts one object or array at several places of it.  What
    [require('../lib')] and the other packages provide is the interface
    [Env]. *)

From Stdlib Require Import String Ascii List Bool Arith Lia.
From stdpp Require Import gmap strings list fin_maps.

Local Open Scope list_scope.
Local Open Scope stdpp_scope.

(** ** Characters *)

Module Char.

Definition code (c : ascii) : nat := nat_of_ascii c.

Definition is_digit (c : ascii) : bool := (48 <=? code c) && (code c <=? 57).
Definition is_upper (c : ascii) : bool := (65 <=? code c) && (code c <=? 90).
Definition is_lower (c : ascii) : bool := (97 <=? code c) && (code c <=? 122).
Definition is_alnum (c : ascii) : bool := is_digit c || is_upper c || is_lower c.

Definition to_lower (c : ascii) : ascii :=
  if is_upper c then ascii_of_nat (code c + 32) else c.

Definition newline : ascii := ascii_of_nat 10.
Definition bar : ascii := ascii_of_nat 124.

End Char.

(** ** Strings *)

Module Str.

Fixpoint all (p : ascii → bool) (s : string) : bool :=
  match s with
  | EmptyString => true
  | String c rest => p c && all p rest
  end.

(** [Array.prototype.join] on an array of strings. *)
Definition join (sep : string) (parts : list string) : string :=
  String.concat sep parts.

(** The text of [parts] put one after the other. *)
Definition cat (parts : list string) : string :=
  foldr String.append EmptyString parts.

Fixpoint drop (n : nat) (s : string) : string :=
  match n, s with
  | S n', String _ rest => drop n' rest
  | _, _ => s
  end.

(** [s.split(sep)] for a separator of one character. *)
Fixpoint split (sep : ascii) (s : string) : list string :=
  match s with
  | EmptyString => [EmptyString]
  | String c rest =>
      if Ascii.eqb c sep then EmptyString :: split sep rest
      else match split sep rest with
           | part :: parts => String c part :: parts
           | [] => [String c EmptyString]
           end
  end.

(** [sep] does not occur in [s]. *)
Definition free (sep : ascii) (s : string) : bool :=
  all (λ c, negb (Ascii.eqb c sep)) s.

(** The lines of a text, and the text of a list of lines, each closed by a
    line feed. *)
Definition lines (s : string) : list string := split Char.newline s.

Definition single_line (s : string) : bool := free Char.newline s.

Definition unlines (ls : list string) : string :=
  cat (map (λ l, l +:+ String Char.newline EmptyString) ls).

(** [occurs t s]: [t] is a substring of [s]. *)
Fixpoint occurs (t s : string) : bool :=
  String.prefix t s ||
  match s with
  | EmptyString => false
  | String _ rest => occurs t rest
  end.

End Str.

(** ** The name formatter of ../lib *)

Module Spec.

(** Modelled from the spec: [formatTokenName] is exported by ../lib, which is
    not among the sources.  Section 4.1 of the specification: identifiers are
    camelCase-like with an embedded two-digit numeric suffix; the formatter
    inserts a separator before the digit group and converts to hyphenated
    lower-case form ([interactive01] becomes [interactive-01]); there is no
    error path.  Below, the first digit starts the digit group, which is
    copied as it is after the separator; an upper-case letter starts a new
    word; any other character is kept. *)
Fixpoint formatTokenName (token : string) : string :=
  match token with
  | EmptyString => EmptyString
  | String c rest =>
      if Char.is_digit c then String "-" token
      else if Char.is_upper c
           then String "-" (String (Char.to_lower c) (formatTokenName rest))
           else String c (formatTokenName rest)
  end.

End Spec.

(** ** JavaScript objects with string keys *)

Module Obj.

(** Own enumerable properties, listed in [Object.keys] order. *)
Definition t (V : Type) : Type := list (string * V).

Definition keys {V} (o : t V) : list string := map fst o.

(** [o[key]]; [None] is [undefined]. *)
Fixpoint get {V} (o : t V) (key : string) : option V :=
  match o with
  | [] => None
  | (k, v) :: rest => if String.eqb k key then Some v else get rest key
  end.

(** An object has each key once. *)
Definition wf {V} (o : t V) : Prop := NoDup (keys o).

End Obj.

(** ** Regular expressions: alternations of literal text

    [new RegExp(source, 'g')] is modelled for sources in which [|] is the
    only syntax character, which is what joining alphanumeric identifiers
    with [|] gives.  Such an expression is the list of its alternatives. *)

Module Regex.

Definition t : Type := list string.

(** The alternatives of the source, left to right. *)
Definition compile (source : string) : t := Str.split Char.bar source.

(** The match at the start of [s]: alternatives are tried left to right and
    the first that fits wins, whatever its length. *)
Fixpoint exec (re : t) (s : string) : option string :=
  match re with
  | [] => None
  | alt :: alts => if String.prefix alt s then Some alt else exec alts s
  end.

(** [String.prototype.replace(re, replacer)] with the [g] flag, read from
    the current position on.  [inside] counts the characters of [s] that
    belong to the match just replaced.  After an empty match the scan moves
    one character on, so an empty alternative matches once at every position
    that no earlier alternative takes, the end of the text included. *)
Fixpoint replace_from (re : t) (replacer : string → string)
    (inside : nat) (s : string) {struct s} : string :=
  match inside with
  | S n =>
      match s with
      | EmptyString => EmptyString
      | String _ rest => replace_from re replacer n rest
      end
  | O =>
      match exec re s with
      | Some m =>
          replacer m +:+
          match s with
          | EmptyString => EmptyString
          | String c rest =>
              match String.length m with
              | O => String c (replace_from re replacer 0 rest)
              | S n => replace_from re replacer n rest
              end
          end
      | None =>
          match s with
          | EmptyString => EmptyString
          | String c rest => String c (replace_from re replacer 0 rest)
          end
      end
  end.

Definition replace (re : t) (replacer : string → string) (s : string) : string :=
  replace_from re replacer 0 s.

(** *** The same, said as a scan

    These two definitions follow the words of the specification: a text is
    scanned from the left; where an identifier matches, the first one in
    identifier order is taken, whatever its length, replaced, and the scan
    goes on after it; where none matches the character is kept. *)

Definition first_alternative (re : t) (s : string) (choice : option string) : Prop :=
  match choice with
  | None => ∀ alt, In alt re → String.prefix alt s = false
  | Some alt =>
      ∃ before after,
        re = before ++ alt :: after ∧
        String.prefix alt s = true ∧
        ∀ alt', In alt' before → String.prefix alt' s = false
  end.

Inductive rewritten (re : t) (replacer : string → string)
    : string → string → Prop :=
| rewritten_end :
    rewritten re replacer EmptyString EmptyString
| rewritten_keep (c : ascii) (s out : string) :
    first_alternative re (String c s) None →
    rewritten re replacer s out →
    rewritten re replacer (String c s) (String c out)
| rewritten_match (alt s rest out : string) :
    s = alt +:+ rest →
    first_alternative re s (Some alt) →
    rewritten re replacer rest out →
    rewritten re replacer s (replacer alt +:+ out).

End Regex.


(** ** Token metadata, as the text builders read it *)

Module Metadata.

(** One entry of the [tokens] sequence: [{name, role?, alias?, deprecated?}].
    An absent property is [None]; [deprecated] is the truth value of the
    property.  This is what reading [tok.name], [tokenData.role],
    [tokenData.alias] and [tokenData.deprecated] gives. *)
Record token : Type := Token {
  name : string;
  role : option (list string);
  alias : option string;
  deprecated : bool;
}.

(** [tokens = None] stands for every value without a token sequence, the
    empty object [{}] among them. *)
Record t : Type := Make { tokens : option (list token) }.

Definition empty : t := Make None.

End Metadata.

(** ** The parsed document (what [yaml.safeLoad] returns)

    js-yaml builds one JavaScript object per YAML node and hands the node of
    an anchor to every alias of it ([&a] ... [*a], or a merge key [<<: *a],
    which copies the reference to the [role] array).  A token object and a
    [role] array are therefore cells of a store, and the document refers to
    them by their number. *)

Module Document.

(** A token object; [role] is the reference to its array of texts. *)
Record object : Type := Object {
  name : string;
  role : option nat;
  alias : option string;
  deprecated : bool;
}.

(** [tokens] is the sequence [metadata.tokens], an array of references to
    token objects ([None] when the document has no such sequence);
    [objects] and [arrays] are the store.  A parsed document refers to
    cells that exist; a reference to no cell reads as nothing. *)
Record t : Type := Make {
  tokens : option (list nat);
  objects : list object;
  arrays : list (list string);
}.

(** The texts of the array [token.role]. *)
Definition texts (d : t) (array : nat) : list string :=
  default [] (arrays d !! array).

(** A token object as it reads. *)
Definition entry (d : t) (token : object) : Metadata.token :=
  Metadata.Token (name token) (texts d <$> role token) (alias token)
                 (deprecated token).

(** The entries of a sequence of references, in order. *)
Definition entries (d : t) (refs : list nat) : list Metadata.token :=
  omap (λ ref, entry d <$> objects d !! ref) refs.

(** The whole document as it reads. *)
Definition read (d : t) : Metadata.t :=
  Metadata.Make (entries d <$> tokens d).

(** The [role] arrays of a sequence of references, in order. *)
Definition roles (d : t) (refs : list nat) : list nat :=
  omap (λ ref, objects d !! ref ≫= role) refs.

(** [array[j] = f(array[j])] for every [j]. *)
Definition update_array (array : nat) (f : string → string) (d : t) : t :=
  Make (tokens d) (objects d) (alter (map f) array (arrays d)).

(** [token.alias = alias]. *)
Definition set_alias (ref : nat) (alias' : string) (d : t) : t :=
  Make (tokens d)
       (alter (λ token, Object (name token) (role token) (Some alias')
                               (deprecated token)) ref (objects d))
       (arrays d).

(** The document a YAML text without anchors parses to: every entry is an
    object of its own with a [role] array of its own. *)
Definition plain (metadata : Metadata.t) : t :=
  match Metadata.tokens metadata with
  | None => Make None [] []
  | Some entries =>
      Make (Some (seq 0 (length entries)))
           (imap (λ i entry,
                    Object (Metadata.name entry)
                           (match Metadata.role entry with
                            | Some _ => Some i
                            | None => None
                            end)
                           (Metadata.alias entry)
                           (Metadata.deprecated entry)) entries)
           (map (λ entry, default [] (Metadata.role entry)) entries)
  end.

End Document.

(** Truth value of a string: only the empty string is falsy. *)
Definition truthy (s : string) : bool := negb (String.eqb s EmptyString).

(** A token identifier: letters and digits, at least one.  Such a name has
    no syntax character of regular expressions and is no inherited property
    of a JavaScript object. *)
Definition identifier (s : string) : bool :=
  truthy s && Str.all Char.is_alnum s.

Definition identifiers (tokens : list Metadata.token) : bool :=
  forallb (λ token, identifier (Metadata.name token)) tokens.

(** ** Exceptions, the world outside the script, and the monad of [build] *)

Inductive error : Type :=
| TypeError (message : string)
| SyntaxError (message : string)
| ENOENT (path : string)
| EACCES (path : string)
| YAMLException (reason : string)
| FormatError (reason : string).

(** Calls that leave the script, in the order they are made. *)
Inductive call : Type :=
| reporter_info (message : string)
| reporter_success (message : string)
| console_error (e : error)
| fs_ensureDir (path : string)
| fs_writeFile (path content : string)
| prettier_call (source : string).

Record world : Type := World {
  files : gmap string string;
  denied : gset string;
  trace : list call;
}.

Definition record (c : call) (w : world) : world :=
  World (files w) (denied w) (trace w ++ [c]).

Definition store (path content : string) (w : world) : world :=
  World (<[path := content]> (files w)) (denied w) (trace w).

Definition M (A : Type) : Type := world → (error + A) * world.

Definition ret {A} (a : A) : M A := λ w, (inr a, w).

Definition throw {A} (e : error) : M A := λ w, (inl e, w).

Definition bind {A B} (m : M A) (k : A → M B) : M B :=
  λ w, match m w with
       | (inl e, w') => (inl e, w')
       | (inr a, w') => k a w'
       end.

Definition try_catch {A} (m : M A) (handler : error → M A) : M A :=
  λ w, match m w with
       | (inl e, w') => handler e w'
       | (inr a, w') => (inr a, w')
       end.

(** A call that computes without touching the world: its exception is
    raised and its value returned. *)
Definition lift {A} (r : error + A) : M A :=
  match r with
  | inl e => throw e
  | inr a => ret a
  end.

Definition log (c : call) : M unit := λ w, (inr tt, record c w).

Declare Scope js_scope.
Delimit Scope js_scope with js.
Notation "x <- m ;; k" := (bind m (λ x, k))
  (at level 100, m at next level, right associativity) : js_scope.
Notation "m ;; k" := (bind m (λ _, k))
  (at level 100, right associativity) : js_scope.

Definition readFileSync (path : string) : M string :=
  λ w, match files w !! path with
       | Some content => (inr content, w)
       | None => (inl (ENOENT path), w)
       end.

Definition ensureDir (path : string) : M unit :=
  λ w, if decide (path ∈ denied w) then (inl (EACCES path), w)
       else (inr tt, record (fs_ensureDir path) w).

Definition writeFile (path content : string) : M unit :=
  λ w, if decide (path ∈ denied w) then (inl (EACCES path), w)
       else (inr tt, record (fs_writeFile path content) (store path content w)).

(** ** What the script requires

    [formatTokenName], [themes] and [tokens.colors] come from ../lib;
    [package_dir] is [path.resolve(__dirname, '..')]; [yaml_safeLoad] is
    [yaml.safeLoad] and [prettier_format] is [prettier.format] under
    [prettierOptions] (parser scss, width 80, single quotes, es5 commas).
    Both either throw or return, and are functions of their argument.

    [RegExp_replace names] is the regular-expression engine of JavaScript
    on names that are not all identifiers: what [new RegExp(names.join('|'),
    'g')] of lines 49-52 and [role.replace] with the callback of lines 63-65
    do there.  The constructor throws or returns, and the replacement is
    then a function of the text.  Nothing is assumed about it. *)
Class Env : Type := {
  formatTokenName : string → string;
  themes : Obj.t (Obj.t string);
  tokenColors : list string;
  package_dir : string;
  yaml_safeLoad : string → error + Document.t;
  prettier_format : string → error + string;
  RegExp_replace : list string → error + (string → string);
}.

(** ** The script *)

Section Script.

Context `{Env}.

Local Open Scope js_scope.

(** The escape [\n] of the source. *)
Definition LF : string := String Char.newline EmptyString.

Definition FILE_BANNER : string :=
"// Code generated by @carbon/themes. DO NOT EDIT.
//
// Copyright IBM Corp. 2018, 2018
//
// This source code is licensed under the Apache-2.0 license found in the
// LICENSE file in the root directory of this source tree.
//
".

Definition SCSS_DIR : string := package_dir +:+ "/scss".
Definition METADATA_FILE : string := package_dir +:+ "/metadata.yml".
Definition MIXINS_ENTRYPOINT : string := SCSS_DIR +:+ "/_mixins.scss".
Definition TOKENS_ENTRYPOINT : string := SCSS_DIR +:+ "/_tokens.scss".
Definition MAPS_ENTRYPOINT : string := SCSS_DIR +:+ "/_theme-maps.scss".

Definition defaultTheme : string := "white".
Definition defaultThemeMapName : string := "$carbon--theme".

(** [replaceMap] of [transformMetadata]: assigned once per entry, in order. *)
Definition replaceMap (tokens : list Metadata.token) : gmap string string :=
  foldl (λ replaceMap token,
           <[Metadata.name token := formatTokenName (Metadata.name token)]> replaceMap)
        ∅ tokens.

(** An absent property prints as [undefined]. *)
Definition print_property (v : option string) : string :=
  default "undefined" v.

Definition namesRegEx (tokens : list Metadata.token) : Regex.t :=
  Regex.compile (Str.join "|" (map Metadata.name tokens)).

(** The callback of [role.replace]. *)
Definition replacer (tokens : list Metadata.token) (match_ : string) : string :=
  "`$" +:+ print_property (replaceMap tokens !! match_) +:+ "`".

(** [role.replace(namesRegEx, match => ...)], lines 49-52 and 63-65, when
    the names are identifiers: the expression is the alternation of these
    literals and every match is a key of [replaceMap]. *)
Definition literal (tokens : list Metadata.token) : string → string :=
  Regex.replace (namesRegEx tokens) (replacer tokens).

(** The same for any names.  A name that is no identifier puts syntax
    characters of regular expressions into the source, or an empty
    alternative: the constructor may throw, and what matches is the
    business of the engine. *)
Definition roleReplace (tokens : list Metadata.token)
    : error + (string → string) :=
  if identifiers tokens then inr (literal tokens)
  else RegExp_replace (map Metadata.name tokens).

(** The callback of [metadata.tokens.forEach], lines 59-73, on the token
    object [ref]: every text of its [role] array is replaced in the array by
    its rewriting, then a truthy alias is replaced in the object by its
    formatted name.  [replace] is [role.replace] with the expression and the
    [replaceMap] built before the loop. *)
Definition transformToken (replace : string → string)
    (metadata : Document.t) (ref : nat) : Document.t :=
  match Document.objects metadata !! ref with
  | None => metadata
  | Some token =>
      let metadata :=
        match Document.role token with
        | Some role => Document.update_array role replace metadata
        | None => metadata
        end in
      match Document.alias token with
      | Some alias =>
          if truthy alias
          then Document.set_alias ref (formatTokenName alias) metadata
          else metadata
      | None => metadata
      end
  end.

(** [transformMetadata], lines 48-76.  Reading [metadata.tokens.map] throws
    when there is no token sequence; the loop writes into the document,
    which is returned. *)
Definition transformMetadata (metadata : Document.t) : error + Document.t :=
  match Document.tokens metadata with
  | None => inl (TypeError "Cannot read property 'map' of undefined")
  | Some refs =>
      match roleReplace (Document.entries metadata refs) with
      | inl e => inl e
      | inr replace => inr (foldl (transformToken replace) metadata refs)
      end
  end.

(** [transformMetadata] applied to its own result. *)
Definition transformMetadata_twice (metadata : Document.t) : error + Document.t :=
  match transformMetadata metadata with
  | inl e => inl e
  | inr metadata' => transformMetadata metadata'
  end.

(** *** One visit of the loop, on the values

    What one visit makes of an entry as it reads, and how often the loop
    visits an object and rewrites an array: an object once for each place
    of the sequence that holds it, an array once for each place whose
    object has it as [role]. *)

Definition formatAlias (alias : string) : string :=
  if truthy alias then formatTokenName alias else alias.

Definition visit (replace : string → string) (token : Metadata.token)
    : Metadata.token :=
  Metadata.Token (Metadata.name token)
                 (map replace <$> Metadata.role token)
                 (formatAlias <$> Metadata.alias token)
                 (Metadata.deprecated token).

Definition visit_object (token : Document.object) : Document.object :=
  Document.Object (Document.name token) (Document.role token)
                  (formatAlias <$> Document.alias token)
                  (Document.deprecated token).

Definition visits (refs : list nat) (ref : nat) : nat :=
  length (List.filter (Nat.eqb ref) refs).

Definition rewrites (d : Document.t) (refs : list nat) (array : nat) : nat :=
  length (List.filter
            (λ ref, bool_decide (Document.objects d !! ref ≫= Document.role
                                 = Some array)) refs).

(** The number of backticks of a text. *)
Fixpoint ticks (s : string) : nat :=
  match s with
  | EmptyString => 0
  | String c rest => (if Ascii.eqb c "`" then 1 else 0) + ticks rest
  end.

(** A formatted name as an inline code reference: backticks around the
    sigil and the name. *)
Definition inline_reference (name : string) : string :=
  "`$" +:+ formatTokenName name +:+ "`".

(** What section 4.2 of the specification asks of a role text, for the
    identifiers of the metadata in their order. *)
Definition normalized_role (names : list string) : string → string → Prop :=
  Regex.rewritten names inline_reference.

(** What it asks of an entry. *)
Definition normalized_entry (names : list string)
    (token token' : Metadata.token) : Prop :=
  Metadata.name token' = Metadata.name token ∧
  Metadata.deprecated token' = Metadata.deprecated token ∧
  match Metadata.alias token with
  | Some alias =>
      Metadata.alias token'
      = Some (if truthy alias then formatTokenName alias else alias)
  | None => Metadata.alias token' = None
  end ∧
  match Metadata.role token with
  | Some role =>
      ∃ role', Metadata.role token' = Some role' ∧
               Forall2 (normalized_role names) role role'
  | None => Metadata.role token' = None
  end.

(** Nothing is left for the transformation to rewrite in an entry: no name
    of [names] occurs in a role text, and the alias, if it counts as
    present, is a fixed point of the formatter. *)
Definition settled_entry (names : list string) (token : Metadata.token) : bool :=
  from_option
    (forallb (λ role, forallb (λ name, negb (Str.occurs name role)) names))
    true (Metadata.role token)
  && from_option
       (λ alias, negb (truthy alias) || String.eqb (formatTokenName alias) alias)
       true (Metadata.alias token).

Definition settled (tokens : list Metadata.token) : bool :=
  forallb (settled_entry (map Metadata.name tokens)) tokens.

(** No role text of [tokens] holds [name]. *)
Definition unmentioned (name : string) (tokens : list Metadata.token) : bool :=
  forallb (λ token,
             from_option (forallb (λ text, negb (Str.occurs name text))) true
                         (Metadata.role token)) tokens.

(** One theme map, the body of the callback of lines 96-115. *)
Definition scssMap (name : string) : string :=
  let theme := default [] (Obj.get themes name) in
  foldl (λ scssMap key,
           let name := formatTokenName key in
           let value := print_property (Obj.get theme key) in
           (scssMap +:+ "  " +:+ name +:+ ": " +:+ value +:+ ",") +:+ LF)
        ("/// Carbon's " +:+ name +:+ " color theme
/// @type Map
/// @access public
/// @group @carbon/themes
$carbon--theme--" +:+ name +:+ ": (" +:+ LF)
        (Obj.keys theme)
  +:+ ") !default;" +:+ LF.

Definition themeMaps : string :=
  Str.join LF (map scssMap (Obj.keys themes)).

Definition themeMixin : string :=
  foldl (λ themeMixin token,
           let name := formatTokenName token in
           themeMixin +:+ "    $" +:+ name +:+ ": map-get($theme, " +:+ name
                      +:+ ") !global;" +:+ LF)
        ("/// Define theme variables from a map of tokens
/// @access public
/// @param {Map} $theme [" +:+ defaultThemeMapName +:+ "] - Map of theme tokens
/// @content Pass in your custom declaration blocks to be used after the token maps set theming variables.
///
/// @example scss
///   // Default usage
///   @include carbon--theme();
///
///   // Alternate styling (not white theme)
///   @include carbon--theme($carbon--theme--g90) {
///     // declarations...
///   }
///
///   // Inline styling
///   @include carbon--theme($carbon--theme--g90) {
///     .my-dark-theme {
///       // declarations...
///     }
///   }
///
/// @group @carbon/themes
@mixin carbon--theme($theme: " +:+ defaultThemeMapName +:+ ") {" +:+ LF)
        tokenColors
  +:+ LF
  +:+ "  @content;"
  +:+ LF
  +:+ LF
  +:+ "  // Reset to default theme after apply in content"
  +:+ LF
  +:+ "  @if $theme != " +:+ defaultThemeMapName +:+ " {
    @include carbon--theme;
  }"
  +:+ LF
  +:+ "}".

Definition mixinsFile : string :=
  FILE_BANNER +:+ "
@import './theme-maps';

" +:+ themeMixin.

Definition themeMapsFile : string :=
  FILE_BANNER +:+ "
" +:+ themeMaps +:+ "

/// Carbon's default theme
/// @type Map
/// @access public
/// @alias carbon--theme--" +:+ defaultTheme +:+ "
/// @group @carbon/themes
" +:+ defaultThemeMapName +:+ ": $carbon--theme--" +:+ defaultTheme +:+ " !default;
".

(** [tokenData] of lines 189-194: the first entry named [token], or [{}],
    which is [None] here. *)
Definition tokenData (metadata : Metadata.t) (token : string)
    : option Metadata.token :=
  tokens ← Metadata.tokens metadata;
  List.find (λ tok, String.eqb (Metadata.name tok) token) tokens.

(** [tokensFile] once the loop of lines 186-209 has run. *)
Definition tokensFile (metadata : Metadata.t) : string :=
  foldl (λ tokensFile token,
           let name := formatTokenName token in
           let tokenData := tokenData metadata token in
           let tokensFile :=
             tokensFile +:+
             match tokenData ≫= Metadata.role with
             | Some role => LF +:+ LF +:+ "/// " +:+ Str.join "; " role +:+ LF
             | None => LF +:+ LF
             end in
           let tokensFile :=
             tokensFile +:+ "/// @type Color
/// @access public
/// @group @carbon/themes" in
           let tokensFile :=
             tokensFile +:+
             match tokenData ≫= Metadata.alias with
             | Some alias =>
                 if truthy alias then LF +:+ "/// @alias " +:+ alias
                 else EmptyString
             | None => EmptyString
             end in
           let tokensFile :=
             tokensFile +:+
             (if from_option Metadata.deprecated false tokenData
              then LF +:+ "/// @deprecated" else EmptyString) in
           tokensFile +:+ LF +:+ "$" +:+ name +:+ ": map-get("
                      +:+ defaultThemeMapName +:+ ", " +:+ name
                      +:+ ") !default;" +:+ LF)
        (FILE_BANNER +:+ "
@import './theme-maps';" +:+ LF +:+ LF)
        tokenColors.

Definition prettier (source : string) : M string :=
  log (prettier_call source);;
  lift (prettier_format source).

(** Lines 81-89: the metadata is read, parsed and transformed inside one
    [try]; whatever is thrown there is printed and [metadata] keeps its
    initial value [{}].  After the block the script only reads [metadata],
    so the block hands on the document as it reads then. *)
Definition loadMetadata : M Metadata.t :=
  try_catch
    (source <- readFileSync METADATA_FILE;;
     document <- lift (yaml_safeLoad source);;
     metadata <- lift (transformMetadata document);;
     ret (Document.read metadata))
    (λ e, log (console_error e);; ret Metadata.empty).

(** The world after one text has been formatted and written. *)
Definition emitted (path source formatted : string) (w : world) : world :=
  record (fs_writeFile path formatted)
    (store path formatted (record (prettier_call source) w)).

(** Lines 211-225: each text is formatted, then written, one file after the
    other. *)
Definition writeFiles (metadata : Metadata.t) : M unit :=
  ensureDir SCSS_DIR;;
  formatted <- prettier (tokensFile metadata);;
  writeFile TOKENS_ENTRYPOINT formatted;;
  formatted <- prettier mixinsFile;;
  writeFile MIXINS_ENTRYPOINT formatted;;
  formatted <- prettier themeMapsFile;;
  writeFile MAPS_ENTRYPOINT formatted;;
  log (reporter_success "Done! 🎉").

(** The run when nothing throws after the metadata block. *)
Definition written (metadata : Metadata.t) (tokens mixins maps : string)
    (w : world) : world :=
  record (reporter_success "Done! 🎉")
    (emitted MAPS_ENTRYPOINT themeMapsFile maps
       (emitted MIXINS_ENTRYPOINT mixinsFile mixins
          (emitted TOKENS_ENTRYPOINT (tokensFile metadata) tokens
             (record (fs_ensureDir SCSS_DIR) w)))).

(** [build], lines 78-226. *)
Definition build : M unit :=
  log (reporter_info "Building scss files for themes...");;
  metadata <- loadMetadata;;
  writeFiles metadata.

(** Lines 228-230: [build().catch(error => console.error(error))]. *)
Definition main : M unit :=
  try_catch build (λ error, log (console_error error)).

(** The calls a computation adds to the trace of [w]. *)
Definition calls_of {A} (m : M A) (w : world) : list call :=
  drop (length (trace w)) (trace (m w).2).

(** The text [writeFiles] formats for [path], when it is one of the three. *)
Definition source_of (metadata : Metadata.t) (path : string) : option string :=
  if decide (path = TOKENS_ENTRYPOINT) then Some (tokensFile metadata)
  else if decide (path = MIXINS_ENTRYPOINT) then Some mixinsFile
  else if decide (path = MAPS_ENTRYPOINT) then Some themeMapsFile
  else None.

(** *** The generated SCSS, line by line

    These definitions say what the three texts are expected to hold; the
    theorems relate them to the texts the script builds. *)

(** A line that opens a variable declaration at top level. *)
Definition is_variable_declaration (line : string) : bool :=
  String.prefix "$" line.

Definition variable_declarations (text : string) : list string :=
  List.filter is_variable_declaration (Str.lines text).

(** The fixed annotation block of a token declaration. *)
Definition annotations : list string :=
  ["/// @type Color"; "/// @access public"; "/// @group @carbon/themes"].

(** The declaration line of [token]. *)
Definition declaration (token : string) : string :=
  "$" +:+ formatTokenName token +:+ ": map-get($carbon--theme, "
      +:+ formatTokenName token +:+ ") !default;".

(** The doc comment of a token: the roles joined by [; ] if the entry has
    roles, the annotation block, the alias if it has one, the deprecation
    mark if it is deprecated. *)
Definition documentation (tokenData : option Metadata.token) : list string :=
  match tokenData ≫= Metadata.role with
  | Some role => ["/// " +:+ Str.join "; " role]
  | None => []
  end
  ++ annotations
  ++ match tokenData ≫= Metadata.alias with
     | Some alias => if truthy alias then ["/// @alias " +:+ alias] else []
     | None => []
     end
  ++ (if from_option Metadata.deprecated false tokenData
      then ["/// @deprecated"] else []).

(** What one colour token adds to the token file: two empty lines, the doc
    comment, the declaration. *)
Definition token_lines (metadata : Metadata.t) (token : string) : list string :=
  [EmptyString; EmptyString]
  ++ documentation (tokenData metadata token)
  ++ [declaration token].

(** One theme map: its doc comment, the opening of the map, one line per
    token of the theme, the closing. *)
Definition theme_map_lines (name : string) (theme : Obj.t string) : list string :=
  ["/// Carbon's " +:+ name +:+ " color theme"; "/// @type Map";
   "/// @access public"; "/// @group @carbon/themes";
   "$carbon--theme--" +:+ name +:+ ": ("]
  ++ map (λ property, "  " +:+ formatTokenName property.1 +:+ ": "
                           +:+ property.2 +:+ ",") theme
  ++ [") !default;"].

(** The declaration that makes the default theme map an alias. *)
Definition default_alias_lines : list string :=
  ["/// Carbon's default theme"; "/// @type Map"; "/// @access public";
   "/// @alias carbon--theme--white"; "/// @group @carbon/themes";
   "$carbon--theme: $carbon--theme--white !default;"].

(** Blocks of lines with one empty line between two blocks. *)
Fixpoint blank_separated (blocks : list (list string)) : list string :=
  match blocks with
  | [] => []
  | block :: rest =>
      match rest with
      | [] => block
      | _ :: _ => block ++ [EmptyString] ++ blank_separated rest
      end
  end.

(** The names and the values of the themes are one line each. *)
Definition one_line_theme (theme : Obj.t string) : bool :=
  forallb (λ property, Str.single_line (formatTokenName property.1)
                       && Str.single_line property.2) theme.

Definition one_line_themes : bool :=
  forallb (λ entry, Str.single_line entry.1 && one_line_theme entry.2) themes.

(** The mixin: doc comment, signature, one rebinding per colour token, and
    the lines after them up to the closing brace. *)
Definition mixin_documentation : list string :=
  ["/// Define theme variables from a map of tokens";
   "/// @access public";
   "/// @param {Map} $theme [$carbon--theme] - Map of theme tokens";
   "/// @content Pass in your custom declaration blocks to be used after the token maps set theming variables.";
   "///";
   "/// @example scss";
   "///   // Default usage";
   "///   @include carbon--theme();";
   "///";
   "///   // Alternate styling (not white theme)";
   "///   @include carbon--theme($carbon--theme--g90) {";
   "///     // declarations...";
   "///   }";
   "///";
   "///   // Inline styling";
   "///   @include carbon--theme($carbon--theme--g90) {";
   "///     .my-dark-theme {";
   "///       // declarations...";
   "///     }";
   "///   }";
   "///";
   "/// @group @carbon/themes"].

Definition mixin_signature : string :=
  "@mixin carbon--theme($theme: $carbon--theme) {".

Definition rebinding (token : string) : string :=
  "    $" +:+ formatTokenName token +:+ ": map-get($theme, "
          +:+ formatTokenName token +:+ ") !global;".

Definition mixin_content_and_reset : list string :=
  [EmptyString;
   "  @content;";
   EmptyString;
   "  // Reset to default theme after apply in content";
   "  @if $theme != $carbon--theme {";
   "    @include carbon--theme;";
   "  }";
   "}"].

(** The texts of an entry that reach the token file are one line each. *)
Definition one_line_entry (entry : Metadata.token) : bool :=
  from_option (forallb Str.single_line) true (Metadata.role entry)
  && from_option Str.single_line true (Metadata.alias entry).

Definition one_line_metadata (metadata : Metadata.t) : bool :=
  from_option (forallb one_line_entry) true (Metadata.tokens metadata).

End Script.

(** ** Concrete runs

    The end-to-end scenario of the specification (one colour token, the
    themes [white] and [g90]) and variations of it, with the name formatter
    of the specification. *)

Module Scenario.

Definition white_and_g90 : Obj.t (Obj.t string) :=
  [("white", [("interactive01", "#ff0000")]);
   ("g90", [("interactive01", "#0000ff")])].

(** The environment with the colour tokens [colors], a parser that answers
    [document] and the formatter [format].  Its regular-expression engine
    refuses every source that is not an alternation of identifiers. *)
Definition env (colors : list string) (document : error + Document.t)
    (format : string → error + string) : Env :=
  {| formatTokenName := Spec.formatTokenName;
     themes := white_and_g90;
     tokenColors := colors;
     package_dir := "/packages/themes";
     yaml_safeLoad := λ _, document;
     prettier_format := format;
     RegExp_replace := λ _, inl (SyntaxError "Invalid regular expression") |}.

Definition metadata : Metadata.t :=
  Metadata.Make (Some
    [Metadata.Token "interactive01" (Some ["supports interactive01 state"])
                    None false]).

(** The scenario itself; the document has no anchors and the formatter
    returns its input. *)
Definition scenario : Env :=
  env ["interactive01"] (inr (Document.plain metadata)) inr.

(** The metadata of the scenario once transformed. *)
Definition transformed : Metadata.t :=
  Metadata.Make (Some
    [Metadata.Token "interactive01"
                    (Some ["supports `$interactive-01` state"]) None false]).

(** A checkout with the metadata file, and one with files left by an
    earlier run as well. *)
Definition fresh : world :=
  World {[ "/packages/themes/metadata.yml" := "tokens: [...]" ]} ∅ [].

Definition stale : world :=
  World (<[ "/packages/themes/scss/_tokens.scss" := "// old" ]>
           {[ "/packages/themes/metadata.yml" := "tokens: [...]" ]})
        ∅ [reporter_info "Building scss files for themes..."].

(** A checkout without the metadata file. *)
Definition bare : world := World ∅ ∅ [].


(** A document that cannot be parsed. *)
Definition unparsable : Env :=
  env ["interactive01"] (inl (YAMLException "bad indentation")) inr.

(** A formatter that gives up on the mixin. *)
Definition no_mixin (source : string) : error + string :=
  if Str.occurs "@mixin" source then inl (FormatError "mixin") else inr source.

Definition failing : Env :=
  env ["interactive01"] (inr (Document.plain metadata)) no_mixin.

(** Metadata whose only name, [focus], is its own formatted name. *)
Definition focus : Metadata.t :=
  Metadata.Make (Some
    [Metadata.Token "focus" (Some ["Focus border; focus underline"])
                    None false]).

(** Two entries that hold one [role] array, as
    [- {name: focus, role: &r [outline of focus]}] and
    [- {name: active, role: *r}] parse. *)
Definition anchored : Document.t :=
  Document.Make (Some [0; 1])
                [Document.Object "focus" (Some 0) None false;
                 Document.Object "active" (Some 0) None false]
                [["outline of focus"]].

(** One entry listed twice, as [- &e {name: ui01, alias: brand01}] and
    [- *e] parse. *)
Definition listed_twice : Document.t :=
  Document.Make (Some [0; 0])
                [Document.Object "ui01" None (Some "brand01") false]
                [].

(** A formatter that swaps [a] and [b], and an object with the alias [a]
    that is listed twice. *)
Definition swap (token : string) : string :=
  if String.eqb token "a" then "b"
  else if String.eqb token "b" then "a" else token.

Definition swapping : Env :=
  {| formatTokenName := swap;
     themes := white_and_g90;
     tokenColors := ["x"];
     package_dir := "/packages/themes";
     yaml_safeLoad := λ _, inl (YAMLException "unused");
     prettier_format := inr;
     RegExp_replace := λ _, inl (SyntaxError "Invalid regular expression") |}.

Definition swapped : Document.t :=
  Document.Make (Some [0; 0]) [Document.Object "x" None (Some "a") false] [].

(** Metadata for the token [ui01] that mentions [brand01], with and without
    an entry for [brand01], which is not a colour token of [ui]. *)
Definition ui01 : Metadata.token :=
  Metadata.Token "ui01" (Some ["Pairs with brand01"]) None false.

Definition brand01 : Metadata.token :=
  Metadata.Token "brand01" (Some ["Primary brand colour"]) None false.

Definition ui : Env :=
  env ["ui01"] (inr (Document.plain (Metadata.Make (Some [ui01])))) inr.

(** An entry for [field01], which no role text mentions. *)
Definition field01 : Metadata.token :=
  Metadata.Token "field01" (Some ["Input field of interactive01"]) None true.

End Scenario.

(** * Properties *)

(** ** Text *)

Module StrFacts.

Lemma app_cons (c : ascii) (s t : string) :
  String c s +:+ t = String c (s +:+ t).
Proof. done. Qed.

Lemma app_nil_l (s : string) : EmptyString +:+ s = s.
Proof. done. Qed.

Lemma app_nil_r (s : string) : s +:+ EmptyString = s.
Proof. induction s as [|c s IH]; [done|]. by rewrite app_cons, IH. Qed.

Lemma app_assoc (s t u : string) : (s +:+ t) +:+ u = s +:+ t +:+ u.
Proof. induction s as [|c s IH]; [done|]. by rewrite !app_cons, IH. Qed.

Lemma prefix_nil (s : string) : String.prefix EmptyString s = true.
Proof. by destruct s. Qed.

Lemma prefix_cons (c d : ascii) (s t : string) :
  String.prefix (String c s) (String d t) = Ascii.eqb c d && String.prefix s t.
Proof.
  cbn. destruct (ascii_dec c d) as [->|Hne].
  - by rewrite Ascii.eqb_refl.
  - by apply Ascii.eqb_neq in Hne as ->.
Qed.

Lemma length_app (s t : string) :
  String.length (s +:+ t) = String.length s + String.length t.
Proof. induction s as [|c s IH]; [done|]. rewrite app_cons. cbn. by rewrite IH. Qed.

Lemma cat_app (xs ys : list string) :
  Str.cat (xs ++ ys) = Str.cat xs +:+ Str.cat ys.
Proof.
  induction xs as [|x xs IH]; [done|].
  change (x +:+ Str.cat (xs ++ ys) = (x +:+ Str.cat xs) +:+ Str.cat ys).
  by rewrite IH, app_assoc.
Qed.

(** A loop that appends one piece per element builds the pieces in order. *)
Lemma foldl_append {A} (step : string → A → string) (piece : A → string)
    (xs : list A) (acc : string) :
  (∀ acc x, step acc x = acc +:+ piece x) →
  foldl step acc xs = acc +:+ Str.cat (map piece xs).
Proof.
  intros Hstep. revert acc. induction xs as [|x xs IH]; intros acc.
  - symmetry. apply app_nil_r.
  - change (foldl step (step acc x) xs
            = acc +:+ piece x +:+ Str.cat (map piece xs)).
    by rewrite IH, Hstep, app_assoc.
Qed.

Lemma all_app (p : ascii → bool) (s t : string) :
  Str.all p (s +:+ t) = Str.all p s && Str.all p t.
Proof.
  induction s as [|c s IH]; [done|].
  rewrite app_cons. cbn. by rewrite IH, andb_assoc.
Qed.

Lemma free_app (sep : ascii) (s t : string) :
  Str.free sep (s +:+ t) = Str.free sep s && Str.free sep t.
Proof. apply all_app. Qed.

Lemma split_free (sep : ascii) (s : string) :
  Str.free sep s = true → Str.split sep s = [s].
Proof.
  induction s as [|c s IH]; [done|]. cbn.
  intros [Hc Hs]%andb_true_iff. apply negb_true_iff in Hc. rewrite Hc.
  by rewrite (IH Hs).
Qed.

(** Splitting stops a part at the first separator. *)
Lemma split_app (sep : ascii) (s t : string) :
  Str.free sep s = true →
  Str.split sep (s +:+ String sep t) = s :: Str.split sep t.
Proof.
  induction s as [|c s IH]; intros Hfree.
  - rewrite app_nil_l. cbn. by rewrite Ascii.eqb_refl.
  - cbn in Hfree. apply andb_true_iff in Hfree as [Hc Hs].
    apply negb_true_iff in Hc. rewrite app_cons. cbn. rewrite Hc.
    by rewrite (IH Hs).
Qed.

Lemma split_join (sep : ascii) (parts : list string) :
  parts ≠ [] →
  Forall (λ part, Str.free sep part = true) parts →
  Str.split sep (Str.join (String sep EmptyString) parts) = parts.
Proof.
  intros Hne Hfree. induction Hfree as [|part parts Hpart Hparts IH]; [done|].
  destruct parts as [|part' parts].
  - by apply split_free.
  - change (Str.split sep (part +:+ String sep (Str.join (String sep EmptyString) (part' :: parts)))
            = part :: part' :: parts).
    rewrite split_app by done. by rewrite IH.
Qed.

Lemma unlines_cons (l : string) (ls : list string) :
  Str.unlines (l :: ls) =
    l +:+ String Char.newline EmptyString +:+ Str.unlines ls.
Proof. unfold Str.unlines. cbn. by rewrite app_assoc. Qed.

Lemma unlines_nil : Str.unlines [] = EmptyString.
Proof. done. Qed.

Lemma unlines_app (ls1 ls2 : list string) :
  Str.unlines (ls1 ++ ls2) = Str.unlines ls1 +:+ Str.unlines ls2.
Proof. unfold Str.unlines. by rewrite map_app, cat_app. Qed.

(** A text made of one-line lines, and of a last line left open, has
    exactly these lines. *)
Lemma lines_unlines_app (ls : list string) (last : string) :
  Forall (λ l, Str.single_line l = true) ls →
  Str.single_line last = true →
  Str.lines (Str.unlines ls +:+ last) = ls ++ [last].
Proof.
  intros Hls Hlast. induction Hls as [|l ls Hl Hls IH].
  - by apply split_free.
  - rewrite unlines_cons, !app_assoc, app_cons, app_nil_l.
    unfold Str.lines in *. rewrite split_app by done. by rewrite IH.
Qed.

Lemma lines_unlines (ls : list string) :
  Forall (λ l, Str.single_line l = true) ls →
  Str.lines (Str.unlines ls) = ls ++ [EmptyString].
Proof.
  intros Hls. rewrite <- (app_nil_r (Str.unlines ls)).
  by apply lines_unlines_app.
Qed.

Lemma single_line_join (sep : string) (parts : list string) :
  Str.single_line sep = true →
  Forall (λ part, Str.single_line part = true) parts →
  Str.single_line (Str.join sep parts) = true.
Proof.
  intros Hsep. induction 1 as [|part parts Hpart Hparts IH]; [done|].
  destruct parts as [|part' parts]; [done|].
  change (Str.single_line (part +:+ sep +:+ Str.join sep (part' :: parts)) = true).
  unfold Str.single_line in *. rewrite !free_app, Hpart, Hsep. by rewrite IH.
Qed.

End StrFacts.

(** ** Replacement by an alternation *)

Module RegexFacts.

Lemma prefix_split (s t : string) :
  String.prefix s t = true → ∃ rest, t = s +:+ rest.
Proof.
  revert t. induction s as [|c s IH]; intros t Hp; [by exists t|].
  destruct t as [|d t]; [done|].
  rewrite StrFacts.prefix_cons in Hp. apply andb_true_iff in Hp as [Hc Hs].
  apply Ascii.eqb_eq in Hc as ->. destruct (IH _ Hs) as [rest ->].
  by exists rest.
Qed.

Lemma drop_app (s t : string) : Str.drop (String.length s) (s +:+ t) = t.
Proof. induction s as [|c s IH]; [by destruct t|]. by rewrite StrFacts.app_cons. Qed.

(** The search finds what the scan describes, and nothing else fits the
    description. *)
Lemma exec_first (re : Regex.t) (s : string) :
  Regex.first_alternative re s (Regex.exec re s).
Proof.
  induction re as [|alt alts IH]; cbn [Regex.exec]; [by intros ? []|].
  destruct (String.prefix alt s) eqn:Hp.
  - exists [], alts. by repeat split.
  - destruct (Regex.exec alts s) as [m|]; cbn in IH |- *.
    + destruct IH as (before & after & -> & Hm & Hbefore).
      exists (alt :: before), after. repeat split; [done|].
      intros alt' [<-|Hin]; auto.
    + intros alt' [<-|Hin]; auto.
Qed.

Lemma first_exec (re : Regex.t) (s : string) (choice : option string) :
  Regex.first_alternative re s choice → Regex.exec re s = choice.
Proof.
  destruct choice as [alt|]; cbn.
  - intros (before & after & -> & Hm & Hbefore).
    induction before as [|b before IH]; cbn [app Regex.exec].
    + by rewrite Hm.
    + rewrite (Hbefore b) by by left. apply IH. intros ??. apply Hbefore. by right.
  - induction re as [|alt alts IH]; [done|]. intros Hnone. cbn [Regex.exec].
    rewrite (Hnone alt) by by left. apply IH. intros ??. apply Hnone. by right.
Qed.

Lemma exec_In (re : Regex.t) (s m : string) :
  Regex.exec re s = Some m → In m re ∧ String.prefix m s = true.
Proof.
  intros E. pose proof (exec_first re s) as Hf. rewrite E in Hf.
  destruct Hf as (before & after & -> & Hm & _). split; [|done].
  apply in_app_iff. right. by left.
Qed.

(** Characters inside a match are passed over. *)
Lemma replace_from_inside (re : Regex.t) (f : string → string) (n : nat) (s : string) :
  n ≤ String.length s →
  Regex.replace_from re f n s = Regex.replace re f (Str.drop n s).
Proof.
  revert n. induction s as [|c s IH]; intros [|n] Hn; try done.
  - cbn in Hn. lia.
  - cbn [Regex.replace_from Str.drop]. apply IH. cbn in Hn. lia.
Qed.

Lemma replace_keep (re : Regex.t) (f : string → string) (c : ascii) (s : string) :
  Regex.exec re (String c s) = None →
  Regex.replace re f (String c s) = String c (Regex.replace re f s).
Proof. intros E. unfold Regex.replace. cbn [Regex.replace_from]. by rewrite E. Qed.

Lemma replace_match (re : Regex.t) (f : string → string) (m rest : string) :
  Regex.exec re (m +:+ rest) = Some m →
  m ≠ EmptyString →
  Regex.replace re f (m +:+ rest) = f m +:+ Regex.replace re f rest.
Proof.
  intros E Hm. destruct m as [|c m]; [done|].
  rewrite StrFacts.app_cons in *. unfold Regex.replace at 1.
  cbn [Regex.replace_from]. rewrite E. cbn [String.length]. f_equal.
  rewrite replace_from_inside.
  - by rewrite drop_app.
  - rewrite StrFacts.length_app. lia.
Qed.

Lemma replace_empty (re : Regex.t) (f : string → string) :
  Forall (λ alt, alt ≠ EmptyString) re →
  Regex.replace re f EmptyString = EmptyString.
Proof.
  intros Hre. unfold Regex.replace. cbn [Regex.replace_from].
  destruct (Regex.exec re EmptyString) as [m|] eqn:E; [|done].
  apply exec_In in E as [Hin Hp]. rewrite Forall_forall in Hre.
  apply list_elem_of_In, Hre in Hin. by destruct m.
Qed.

(** The replacement is the scan of the specification. *)
Lemma replace_rewritten (re : Regex.t) (f : string → string) (s : string) :
  Forall (λ alt, alt ≠ EmptyString) re →
  Regex.rewritten re f s (Regex.replace re f s).
Proof.
  intros Hre. remember (String.length s) as n eqn:Hn. revert s Hn.
  induction n as [n IH] using lt_wf_ind. intros s ->.
  destruct s as [|c s].
  { rewrite replace_empty by done. constructor. }
  destruct (Regex.exec re (String c s)) as [m|] eqn:E.
  - pose proof (exec_In _ _ _ E) as [Hin Hp].
    assert (m ≠ EmptyString) as Hm.
    { rewrite Forall_forall in Hre. by apply Hre, list_elem_of_In. }
    destruct (prefix_split _ _ Hp) as [rest Hrest]. rewrite Hrest in E, IH |- *.
    rewrite replace_match by done.
    eapply Regex.rewritten_match; [done| |].
    + rewrite <- E. apply exec_first.
    + eapply IH; [|done]. rewrite StrFacts.length_app.
      destruct m; [done|]. cbn. lia.
  - rewrite replace_keep by done. constructor.
    + rewrite <- E. apply exec_first.
    + eapply IH; [|done]. cbn. lia.
Qed.

(** The scan has one outcome. *)
Lemma rewritten_replace (re : Regex.t) (f : string → string) (s out : string) :
  Forall (λ alt, alt ≠ EmptyString) re →
  Regex.rewritten re f s out → out = Regex.replace re f s.
Proof.
  intros Hre. induction 1 as [|c s out Hnone _ IH|alt s rest out -> Hsome _ IH].
  - by rewrite replace_empty.
  - apply first_exec in Hnone. by rewrite replace_keep, IH.
  - apply first_exec in Hsome. pose proof (exec_In _ _ _ Hsome) as [Hin _].
    rewrite replace_match, IH; [done..|].
    rewrite Forall_forall in Hre. by apply Hre, list_elem_of_In.
Qed.

End RegexFacts.

(** Both sides are brought to one right-nested chain of pieces. *)
Ltac text_eq :=
  rewrite ?StrFacts.unlines_app, ?StrFacts.unlines_cons, ?StrFacts.unlines_nil;
  rewrite ?StrFacts.app_assoc;
  reflexivity.

(** ** The three texts *)

Section Text.

Context `{Env}.

Lemma token_piece (metadata : Metadata.t) (token : string) :
  let tokenData := tokenData metadata token in
  ((((match tokenData ≫= Metadata.role with
      | Some role => LF +:+ LF +:+ "/// " +:+ Str.join "; " role +:+ LF
      | None => LF +:+ LF
      end) +:+ "/// @type Color
/// @access public
/// @group @carbon/themes") +:+
     match tokenData ≫= Metadata.alias with
     | Some alias =>
         if truthy alias then LF +:+ "/// @alias " +:+ alias else EmptyString
     | None => EmptyString
     end) +:+
    (if from_option Metadata.deprecated false tokenData
     then LF +:+ "/// @deprecated" else EmptyString)) +:+
  LF +:+ "$" +:+ formatTokenName token +:+ ": map-get("
     +:+ defaultThemeMapName +:+ ", " +:+ formatTokenName token
     +:+ ") !default;" +:+ LF
  = Str.unlines (token_lines metadata token).
Proof.
  intros tokenData. unfold token_lines, documentation, declaration, annotations.
  fold tokenData.
  destruct (tokenData ≫= Metadata.role) as [role|];
    (destruct (tokenData ≫= Metadata.alias) as [alias|];
       [destruct (truthy alias)|]);
    destruct (from_option Metadata.deprecated false tokenData);
    cbn [app]; text_eq.
Qed.

Lemma tokensFile_text (metadata : Metadata.t) :
  tokensFile metadata =
    FILE_BANNER +:+ "
@import './theme-maps';

" +:+ Str.unlines (flat_map (token_lines metadata) tokenColors).
Proof.
  unfold tokensFile.
  rewrite (StrFacts.foldl_append _ (λ token, Str.unlines (token_lines metadata token))).
  - assert (Str.cat (map (λ token, Str.unlines (token_lines metadata token)) tokenColors)
            = Str.unlines (flat_map (token_lines metadata) tokenColors)) as ->.
    { induction tokenColors as [|token tokens IH]; [done|].
      cbn [map flat_map]. by rewrite StrFacts.unlines_app, <- IH. }
    rewrite ?StrFacts.app_assoc. reflexivity.
  - intros acc token. cbv zeta. rewrite <- token_piece. cbv zeta.
    by rewrite !StrFacts.app_assoc.
Qed.

Lemma tokenData_entry (metadata : Metadata.t) (token : string) (entry : Metadata.token) :
  tokenData metadata token = Some entry →
  ∃ tokens, Metadata.tokens metadata = Some tokens ∧
            In entry tokens ∧ Metadata.name entry = token.
Proof.
  unfold tokenData. destruct (Metadata.tokens metadata) as [tokens|]; [|done].
  cbn. intros [Hin Hname]%find_some. apply String.eqb_eq in Hname. eauto.
Qed.

Lemma filter_none {A} (p : A → bool) (xs : list A) :
  Forall (λ x, p x = false) xs → List.filter p xs = [].
Proof. induction 1 as [|x xs Hx _ IH]; [done|]. cbn. by rewrite Hx. Qed.

Lemma declaration_opens (token : string) :
  is_variable_declaration (declaration token) = true.
Proof.
  unfold is_variable_declaration, declaration.
  rewrite StrFacts.app_cons. cbn. apply StrFacts.prefix_nil.
Qed.

(** No line of a doc comment opens a declaration. *)
Lemma documentation_comments (tokenData : option Metadata.token) :
  Forall (λ line, is_variable_declaration line = false) (documentation tokenData).
Proof.
  unfold documentation, annotations.
  destruct (tokenData ≫= Metadata.role) as [role|];
    (destruct (tokenData ≫= Metadata.alias) as [alias|];
       [destruct (truthy alias)|]);
    destruct (from_option Metadata.deprecated false tokenData);
    repeat constructor.
Qed.

Lemma documentation_one_line (metadata : Metadata.t) (token : string) :
  one_line_metadata metadata = true →
  Forall (λ line, Str.single_line line = true)
         (documentation (tokenData metadata token)).
Proof.
  intros Hmeta. unfold documentation, annotations.
  destruct (tokenData metadata token) as [entry|] eqn:Hdata;
    [|cbn; repeat constructor].
  apply tokenData_entry in Hdata as (tokens & Htokens & Hin & _).
  unfold one_line_metadata in Hmeta. rewrite Htokens in Hmeta. cbn in Hmeta.
  rewrite forallb_forall in Hmeta. specialize (Hmeta _ Hin).
  unfold one_line_entry in Hmeta. apply andb_true_iff in Hmeta as [Hrole Halias].
  cbn [mbind option_bind from_option].
  repeat apply Forall_app_2.
  - destruct (Metadata.role entry) as [role|]; [|constructor].
    constructor; [|constructor]. cbn in Hrole.
    unfold Str.single_line in *. rewrite StrFacts.free_app. cbn.
    apply (StrFacts.single_line_join "; " role); [done|].
    apply Forall_forall. intros part Hpart%list_elem_of_In.
    by apply (proj1 (forallb_forall _ _) Hrole).
  - repeat constructor.
  - destruct (Metadata.alias entry) as [alias|]; [|constructor].
    destruct (truthy alias); constructor; [|constructor].
    cbn in Halias. unfold Str.single_line in *. by rewrite StrFacts.free_app.
  - destruct (Metadata.deprecated entry); repeat constructor.
Qed.

(** C2.  The token file, for every token list and every metadata set: after
    the banner and the import it is, token after token in list order, two
    empty lines, the doc comment of the token and the line
    [$name: map-get($carbon--theme, name) !default;].  A token that has no
    metadata entry gets the fixed annotation block alone as doc comment.
    When the metadata texts and the formatted names are one line each, the
    variable declarations of the file are exactly these lines, one per
    token, in list order. *)
Theorem token_declarations (metadata : Metadata.t) :
  tokensFile metadata =
    FILE_BANNER +:+ "
@import './theme-maps';

" +:+ Str.unlines (flat_map (token_lines metadata) tokenColors)
  ∧ (∀ token,
       tokenData metadata token = None →
       token_lines metadata token =
         [EmptyString; EmptyString; "/// @type Color"; "/// @access public";
          "/// @group @carbon/themes";
          "$" +:+ formatTokenName token +:+ ": map-get($carbon--theme, "
              +:+ formatTokenName token +:+ ") !default;"])
  ∧ (one_line_metadata metadata = true →
     forallb (λ token, Str.single_line (formatTokenName token)) tokenColors = true →
     variable_declarations (tokensFile metadata) = map declaration tokenColors).
Proof.
  split; [apply tokensFile_text|]. split.
  { intros token Hnone. unfold token_lines. by rewrite Hnone. }
  intros Hmeta Hnames. rewrite forallb_forall in Hnames.
  unfold variable_declarations.
  set (header := ["// Code generated by @carbon/themes. DO NOT EDIT."; "//";
                  "// Copyright IBM Corp. 2018, 2018"; "//";
                  "// This source code is licensed under the Apache-2.0 license found in the";
                  "// LICENSE file in the root directory of this source tree.";
                  "//"; EmptyString; "@import './theme-maps';"; EmptyString]).
  assert (tokensFile metadata
          = Str.unlines (header ++ flat_map (token_lines metadata) tokenColors)) as ->.
  { rewrite tokensFile_text, StrFacts.unlines_app. reflexivity. }
  rewrite StrFacts.lines_unlines.
  - rewrite !List.filter_app.
    rewrite (filter_none _ header) by repeat constructor.
    rewrite app_nil_r. cbn [app].
    clear Hnames. generalize tokenColors. intros tokens.
    induction tokens as [|token tokens IH]; [done|].
    cbn [flat_map map]. rewrite List.filter_app, IH.
    unfold token_lines. rewrite !List.filter_app.
    rewrite (filter_none _ _ (documentation_comments _)).
    rewrite (filter_none _ [EmptyString; EmptyString]) by repeat constructor.
    cbn [List.filter app]. by rewrite declaration_opens.
  - apply Forall_app_2; [repeat constructor|].
    apply Forall_flat_map, Forall_forall. intros token Htoken%list_elem_of_In.
    unfold token_lines.
    apply Forall_app_2; [repeat constructor|]. apply Forall_app_2.
    + by apply documentation_one_line.
    + constructor; [|constructor]. unfold declaration, Str.single_line.
      specialize (Hnames _ Htoken). unfold Str.single_line in Hnames.
      rewrite !StrFacts.free_app, Hnames. done.
Qed.

Lemma themeMixin_text :
  themeMixin =
    Str.unlines (mixin_documentation ++ [mixin_signature]
                 ++ map rebinding tokenColors
                 ++ removelast mixin_content_and_reset) +:+ "}".
Proof.
  unfold themeMixin.
  rewrite (StrFacts.foldl_append _ (λ token, rebinding token +:+ LF)).
  - assert (Str.cat (map (λ token, rebinding token +:+ LF) tokenColors)
            = Str.unlines (map rebinding tokenColors)) as ->.
    { unfold Str.unlines. by rewrite map_map. }
    rewrite !StrFacts.unlines_app. unfold mixin_documentation, mixin_signature.
    cbn [removelast mixin_content_and_reset]. text_eq.
  - intros acc token. unfold rebinding. by rewrite !StrFacts.app_assoc.
Qed.

(** C4.  The mixin file is the banner, the import and the mixin.  The mixin
    is its doc comment, the signature with the single parameter [$theme]
    that defaults to [$carbon--theme], then for each colour token, in list
    order, the global rebinding [$name: map-get($theme, name) !global;],
    then [@content;], then the reset guarded by [$theme != $carbon--theme]
    that includes [carbon--theme] without argument, and the closing brace.
    When the formatted names are one line each these are the lines of the
    mixin, in this order and no others. *)
Theorem theme_switch_mixin :
  mixinsFile = FILE_BANNER +:+ "
@import './theme-maps';

" +:+ themeMixin
  ∧ themeMixin =
      Str.unlines mixin_documentation +:+
      "@mixin carbon--theme($theme: $carbon--theme) {
" +:+ Str.unlines (map (λ token, "    $" +:+ formatTokenName token
                                  +:+ ": map-get($theme, "
                                  +:+ formatTokenName token
                                  +:+ ") !global;") tokenColors) +:+ "
  @content;

  // Reset to default theme after apply in content
  @if $theme != $carbon--theme {
    @include carbon--theme;
  }
}"
  ∧ (forallb (λ token, Str.single_line (formatTokenName token)) tokenColors = true →
     Str.lines themeMixin =
       mixin_documentation ++ [mixin_signature]
       ++ map rebinding tokenColors
       ++ [EmptyString;
           "  @content;";
           EmptyString;
           "  // Reset to default theme after apply in content";
           "  @if $theme != $carbon--theme {";
           "    @include carbon--theme;";
           "  }";
           "}"]).
Proof.
  split; [reflexivity|]. split.
  { rewrite themeMixin_text, !StrFacts.unlines_app.
    unfold mixin_signature. cbn [removelast mixin_content_and_reset].
    fold rebinding. change (λ token, rebinding token) with rebinding. text_eq. }
  intros Hnames. rewrite forallb_forall in Hnames.
  rewrite themeMixin_text, StrFacts.lines_unlines_app; [|..|done].
  - by rewrite <- !(assoc_L (++)).
  - apply Forall_app_2; [repeat constructor|].
    apply Forall_app_2; [repeat constructor|].
    apply Forall_app_2; [|repeat constructor].
    apply Forall_map, Forall_forall. intros token Htoken%list_elem_of_In.
    unfold rebinding, Str.single_line in *.
    by rewrite !StrFacts.free_app, (Hnames _ Htoken).
Qed.

Lemma Obj_get_In {V} (o : Obj.t V) (key : string) (value : V) :
  Obj.wf o → In (key, value) o → Obj.get o key = Some value.
Proof.
  unfold Obj.wf, Obj.keys. induction o as [|[k v] o IH]; [done|].
  cbn [map fst Obj.get]. intros [Hk Ho]%NoDup_cons [[= -> ->]|Hin].
  - by rewrite String.eqb_refl.
  - destruct (String.eqb_spec k key) as [->|_]; [|by apply IH].
    destruct Hk. apply list_elem_of_In, in_map_iff. by exists (key, value).
Qed.

Lemma scssMap_text (name : string) (theme : Obj.t string) :
  Obj.wf themes → In (name, theme) themes → Obj.wf theme →
  scssMap name = Str.unlines (theme_map_lines name theme).
Proof.
  intros Hthemes Hin Htheme. unfold scssMap.
  rewrite (Obj_get_In _ _ _ Hthemes Hin). cbn [default from_option id].
  rewrite (StrFacts.foldl_append _
    (λ key, "  " +:+ formatTokenName key +:+ ": "
                 +:+ print_property (Obj.get theme key) +:+ "," +:+ LF)).
  - assert (Str.cat (map (λ key, "  " +:+ formatTokenName key +:+ ": "
                                   +:+ print_property (Obj.get theme key)
                                   +:+ "," +:+ LF) (Obj.keys theme))
            = Str.unlines (map (λ property, "  " +:+ formatTokenName property.1
                                             +:+ ": " +:+ property.2 +:+ ",") theme))
      as ->.
    { unfold Str.unlines, Obj.keys. rewrite !map_map. f_equal.
      apply map_ext_in. intros [key value] Hprop. cbn [fst snd].
      rewrite (Obj_get_In _ _ _ Htheme Hprop). cbn [print_property default from_option id].
      by rewrite !StrFacts.app_assoc. }
    unfold theme_map_lines. rewrite !StrFacts.unlines_app. text_eq.
  - intros acc key. cbv zeta. by rewrite !StrFacts.app_assoc.
Qed.

Lemma join_unlines (blocks : list (list string)) :
  Str.join LF (map Str.unlines blocks) = Str.unlines (blank_separated blocks).
Proof.
  induction blocks as [|block [|block' blocks] IH]; [done..|].
  change (Str.unlines block +:+ LF +:+ Str.join LF (map Str.unlines (block' :: blocks))
          = Str.unlines (block ++ [EmptyString] ++ blank_separated (block' :: blocks))).
  rewrite IH, !StrFacts.unlines_app. text_eq.
Qed.

Lemma filter_blank_separated (p : string → bool) (blocks : list (list string)) :
  p EmptyString = false →
  List.filter p (blank_separated blocks) = flat_map (List.filter p) blocks.
Proof.
  intros Hp. induction blocks as [|block [|block' blocks] IH]; [done| |].
  - cbn. by rewrite app_nil_r.
  - change (List.filter p (block ++ [EmptyString] ++ blank_separated (block' :: blocks))
            = List.filter p block ++ flat_map (List.filter p) (block' :: blocks)).
    rewrite !List.filter_app, IH. cbn [List.filter]. by rewrite Hp.
Qed.

Lemma blank_separated_Forall (P : string → Prop) (blocks : list (list string)) :
  P EmptyString → Forall (Forall P) blocks → Forall P (blank_separated blocks).
Proof.
  intros Hp. induction 1 as [|block blocks Hblock Hblocks IH]; [constructor|].
  destruct blocks as [|block' blocks]; [done|].
  change (Forall P (block ++ [EmptyString] ++ blank_separated (block' :: blocks))).
  apply Forall_app_2; [done|]. by constructor.
Qed.

(** The declaration that opens a theme map is its only declaration line. *)
Lemma theme_map_declaration (name : string) (theme : Obj.t string) :
  List.filter is_variable_declaration (theme_map_lines name theme)
  = ["$carbon--theme--" +:+ name +:+ ": ("].
Proof.
  unfold theme_map_lines.
  change (List.filter is_variable_declaration
            (([ "/// Carbon's " +:+ name +:+ " color theme"; "/// @type Map";
                "/// @access public"; "/// @group @carbon/themes"]
              ++ ["$carbon--theme--" +:+ name +:+ ": ("])
             ++ map (λ property, "  " +:+ formatTokenName property.1 +:+ ": "
                                      +:+ property.2 +:+ ",") theme
             ++ [") !default;"])
          = ["$carbon--theme--" +:+ name +:+ ": ("]).
  rewrite !List.filter_app.
  rewrite (filter_none _ (map _ theme)).
  - rewrite (filter_none _ [") !default;"]) by repeat constructor.
    rewrite (filter_none _ [_; _; _; _]) by repeat constructor.
    cbn [List.filter app]. unfold is_variable_declaration.
    rewrite StrFacts.app_cons, StrFacts.prefix_cons, StrFacts.prefix_nil.
    reflexivity.
  - apply Forall_map, Forall_forall. intros property _. reflexivity.
Qed.

Lemma themeMaps_text :
  Obj.wf themes →
  Forall (λ entry, Obj.wf entry.2) themes →
  themeMaps =
    Str.unlines (blank_separated
                   (map (λ entry, theme_map_lines entry.1 entry.2) themes)).
Proof.
  intros Hthemes Heach. rewrite <- join_unlines.
  unfold themeMaps, Obj.keys. rewrite !map_map. f_equal.
  apply map_ext_in. intros [name theme] Hin. cbn [fst snd].
  apply scssMap_text; [done..|].
  rewrite Forall_forall in Heach. by apply (Heach (name, theme)), list_elem_of_In.
Qed.

(** C3.  The theme-maps file, for every theme collection (an object has
    each key once): after the banner come the theme maps, one per theme in
    the order of the collection and an empty line between two of them, then
    the declaration that binds [$carbon--theme] to [$carbon--theme--white].
    A theme map is its doc comment, the opening [$carbon--theme--name: (],
    one line [  name: value,] per token of that theme in the key order of
    the theme, and [) !default;].  When the theme names, the formatted names
    and the values are one line each, the variable declarations of the file
    are exactly the openings of the maps, one per theme in that order,
    followed by the one default declaration. *)
Theorem theme_maps :
  Obj.wf themes →
  Forall (λ entry, Obj.wf entry.2) themes →
  themeMapsFile =
    FILE_BANNER +:+ LF +:+
    Str.join LF (map (λ entry, Str.unlines (theme_map_lines entry.1 entry.2)) themes)
    +:+ LF +:+ LF +:+ Str.unlines default_alias_lines
  ∧ (one_line_themes = true →
     variable_declarations themeMapsFile =
       map (λ name, "$carbon--theme--" +:+ name +:+ ": (") (Obj.keys themes)
       ++ ["$carbon--theme: $carbon--theme--white !default;"]).
Proof.
  intros Hthemes Heach.
  pose proof (themeMaps_text Hthemes Heach) as Hmaps.
  set (blocks := map (λ entry, theme_map_lines entry.1 entry.2) themes) in *.
  split.
  { unfold themeMapsFile. rewrite Hmaps.
    replace (map (λ entry, Str.unlines (theme_map_lines entry.1 entry.2)) themes)
      with (map Str.unlines blocks) by (unfold blocks; by rewrite map_map).
    rewrite join_unlines. unfold default_alias_lines. text_eq. }
  intros Hlines. unfold variable_declarations.
  set (header := ["// Code generated by @carbon/themes. DO NOT EDIT."; "//";
                  "// Copyright IBM Corp. 2018, 2018"; "//";
                  "// This source code is licensed under the Apache-2.0 license found in the";
                  "// LICENSE file in the root directory of this source tree.";
                  "//"; EmptyString]).
  assert (themeMapsFile
          = Str.unlines (header ++ blank_separated blocks
                         ++ [EmptyString; EmptyString] ++ default_alias_lines)) as ->.
  { unfold themeMapsFile. rewrite Hmaps, !StrFacts.unlines_app.
    unfold header, default_alias_lines. text_eq. }
  rewrite StrFacts.lines_unlines.
  - rewrite !List.filter_app.
    rewrite (filter_none _ header) by repeat constructor.
    rewrite filter_blank_separated by done.
    rewrite app_nil_l, <- !(assoc_L (++)). f_equal.
    unfold blocks, Obj.keys. rewrite flat_map_concat_map, !map_map.
    generalize themes. intros entries.
    induction entries as [|[name theme] entries IH]; [done|].
    cbn [map concat fst snd]. by rewrite theme_map_declaration, IH.
  - unfold one_line_themes in Hlines. rewrite forallb_forall in Hlines.
    apply Forall_app_2; [repeat constructor|].
    apply Forall_app_2; [|repeat constructor].
    apply blank_separated_Forall; [done|].
    apply Forall_map, Forall_forall. intros [name theme] Hin%list_elem_of_In.
    apply Hlines in Hin. cbn [fst snd] in *.
    apply andb_true_iff in Hin as [Hname Htheme].
    unfold one_line_theme in Htheme. rewrite forallb_forall in Htheme.
    unfold theme_map_lines, Str.single_line in *.
    apply Forall_app_2; [|apply Forall_app_2].
    + repeat constructor; rewrite !StrFacts.free_app, Hname; done.
    + apply Forall_map, Forall_forall. intros property Hprop%list_elem_of_In.
      apply Htheme, andb_true_iff in Hprop as [Hkey Hvalue].
      by rewrite !StrFacts.free_app, Hkey, Hvalue.
    + repeat constructor.
Qed.

End Text.

(** ** The transformation of the metadata *)

Section Normalizer.

Context `{Env}.

Lemma all_impl (p q : ascii → bool) (s : string) :
  (∀ c, p c = true → q c = true) → Str.all p s = true → Str.all q s = true.
Proof.
  intros Hpq. induction s as [|c s IH]; [done|]. cbn.
  intros [Hc Hs]%andb_true_iff. by rewrite (Hpq _ Hc), IH.
Qed.

Lemma identifier_nonempty (s : string) : identifier s = true → s ≠ EmptyString.
Proof. by intros ? ->. Qed.

Lemma identifier_no_bar (s : string) :
  identifier s = true → Str.free Char.bar s = true.
Proof.
  intros [_ Hs]%andb_true_iff. revert Hs. apply all_impl. intros c Hc.
  destruct (Ascii.eqb_spec c Char.bar) as [->|]; [done|done].
Qed.

Lemma identifiers_names (tokens : list Metadata.token) :
  identifiers tokens = true →
  Forall (λ name, identifier name = true) (map Metadata.name tokens).
Proof.
  unfold identifiers. rewrite forallb_forall. intros Hall.
  apply Forall_map, Forall_forall. intros token Hin%list_elem_of_In. by apply Hall.
Qed.

(** Joined by bars and compiled, the names are the alternatives. *)
Lemma namesRegEx_names (tokens : list Metadata.token) :
  tokens ≠ [] →
  identifiers tokens = true →
  namesRegEx tokens = map Metadata.name tokens.
Proof.
  intros Hne Hids. unfold namesRegEx, Regex.compile.
  apply (StrFacts.split_join Char.bar).
  - by destruct tokens.
  - eapply Forall_impl; [by apply identifiers_names|]. apply identifier_no_bar.
Qed.

(** [replaceMap] holds the formatted name of every name. *)
Lemma replaceMap_lookup (tokens : list Metadata.token) (name : string) :
  In name (map Metadata.name tokens) →
  replaceMap tokens !! name = Some (formatTokenName name).
Proof.
  unfold replaceMap.
  assert (∀ acc : gmap string string,
            foldl (λ replaceMap token,
                     <[Metadata.name token := formatTokenName (Metadata.name token)]> replaceMap)
                  acc tokens !! name
            = if decide (name ∈ map Metadata.name tokens)
              then Some (formatTokenName name) else acc !! name) as Hfold.
  { induction tokens as [|token tokens IH]; intros acc; cbn [foldl map].
    - rewrite decide_False; [done|]. by intros ?%elem_of_nil.
    - rewrite IH. destruct (decide (name ∈ map Metadata.name tokens)) as [Hin|Hnin].
      + rewrite decide_True; [done|]. by right.
      + destruct (decide (name = Metadata.name token)) as [->|Hne].
        * rewrite lookup_insert_eq, decide_True; [done|]. by left.
        * rewrite lookup_insert_ne by done. rewrite decide_False; [done|].
          by intros [?|?]%elem_of_cons. }
  intros Hin%list_elem_of_In. rewrite Hfold. by rewrite decide_True.
Qed.

Lemma replacer_reference (tokens : list Metadata.token) (name : string) :
  In name (map Metadata.name tokens) →
  replacer tokens name = inline_reference name.
Proof. intros Hin. unfold replacer. by rewrite replaceMap_lookup. Qed.

(** Only what the callback returns on the alternatives matters. *)
Lemma replace_from_ext (re : Regex.t) (f g : string → string) (n : nat) (s : string) :
  (∀ alt, In alt re → f alt = g alt) →
  Regex.replace_from re f n s = Regex.replace_from re g n s.
Proof.
  intros Hfg. revert n. induction s as [|c s IH]; intros [|n]; cbn [Regex.replace_from];
    try done.
  - destruct (Regex.exec re EmptyString) as [m|] eqn:E; [|done].
    apply RegexFacts.exec_In in E as [Hin _]. by rewrite (Hfg _ Hin).
  - destruct (Regex.exec re (String c s)) as [m|] eqn:E; [|by rewrite IH].
    apply RegexFacts.exec_In in E as [Hin _]. rewrite (Hfg _ Hin).
    destruct (String.length m); by rewrite IH.
Qed.

(** What the callback does to a role text, once the names are known to be
    identifiers. *)
Lemma role_replace (tokens : list Metadata.token) (role : string) :
  tokens ≠ [] →
  identifiers tokens = true →
  literal tokens role
  = Regex.replace (map Metadata.name tokens) inline_reference role.
Proof.
  intros Hne Hids. unfold literal. rewrite namesRegEx_names by done.
  apply replace_from_ext. intros alt Hin. by apply replacer_reference.
Qed.

Lemma Forall2_map_r {A B} (P : A → B → Prop) (g : A → B) (xs : list A) :
  (∀ x, In x xs → P x (g x)) → Forall2 P xs (map g xs).
Proof.
  induction xs as [|x xs IH]; intros Hall; [constructor|].
  cbn [map]. constructor; [apply Hall; by left|].
  apply IH. intros ??. apply Hall. by right.
Qed.

Lemma visit_normalized (tokens : list Metadata.token) (token : Metadata.token) :
  identifiers tokens = true →
  In token tokens →
  normalized_entry (map Metadata.name tokens) token (visit (literal tokens) token).
Proof.
  intros Hids Hin. assert (tokens ≠ []) as Hne by by destruct tokens.
  unfold normalized_entry, visit, formatAlias. cbn [Metadata.name Metadata.role
    Metadata.alias Metadata.deprecated].
  repeat split.
  - by destruct (Metadata.alias token).
  - destruct (Metadata.role token) as [role|]; [|done].
    eexists. split; [done|]. apply Forall2_map_r. intros text _.
    rewrite role_replace by done. apply RegexFacts.replace_rewritten.
    eapply Forall_impl; [by apply identifiers_names|]. apply identifier_nonempty.
Qed.

Lemma Forall2_functional {A B} (P : A → B → Prop) (xs : list A) (ys ys' : list B) :
  (∀ x y y', P x y → P x y' → y = y') →
  Forall2 P xs ys → Forall2 P xs ys' → ys = ys'.
Proof.
  intros Hfun Hys. revert ys'.
  induction Hys as [|x y xs ys Hy _ IH]; intros ys' Hys'; inversion Hys'; subst;
    [done|]. f_equal; [by eapply Hfun|by apply IH].
Qed.

(** The specification leaves one result for an entry. *)
Lemma normalized_entry_functional (names : list string)
    (token token1 token2 : Metadata.token) :
  Forall (λ name, name ≠ EmptyString) names →
  normalized_entry names token token1 →
  normalized_entry names token token2 →
  token1 = token2.
Proof.
  intros Hnames (Hn1 & Hd1 & Ha1 & Hr1) (Hn2 & Hd2 & Ha2 & Hr2).
  destruct token1 as [n1 r1 a1 d1], token2 as [n2 r2 a2 d2]. cbn in *.
  assert (a1 = a2) as -> by (destruct (Metadata.alias token); congruence).
  assert (r1 = r2) as ->.
  { destruct (Metadata.role token) as [role|]; [|congruence].
    destruct Hr1 as (role1 & -> & H1), Hr2 as (role2 & -> & H2). f_equal.
    apply (Forall2_functional _ _ _ _ (λ text out out' Ho Ho',
             eq_trans (RegexFacts.rewritten_replace _ _ _ _ Hnames Ho)
                      (eq_sym (RegexFacts.rewritten_replace _ _ _ _ Hnames Ho')))
             H1 H2). }
  congruence.
Qed.

Lemma map_fixed {A} (g : A → A) (xs : list A) :
  map g xs = xs ↔ ∀ x, In x xs → g x = x.
Proof.
  induction xs as [|x xs IH]; cbn [map]; [by split|]. split.
  - intros [= Hx Hxs] y [<-|Hin]; [done|]. by apply IH.
  - intros Hall. rewrite (Hall x) by by left. f_equal. apply IH.
    intros ??. apply Hall. by right.
Qed.

(** Where no alternative occurs, the text is left as it is. *)
Lemma replace_untouched (re : Regex.t) (f : string → string) (s : string) :
  (∀ alt, In alt re → Str.occurs alt s = false) →
  Regex.replace re f s = s.
Proof.
  induction s as [|c s IH]; intros Hnone.
  - unfold Regex.replace. cbn [Regex.replace_from].
    destruct (Regex.exec re EmptyString) as [m|] eqn:E; [|done].
    apply RegexFacts.exec_In in E as [Hin Hp].
    apply Hnone in Hin. cbn [Str.occurs] in Hin. by rewrite Hp in Hin.
  - assert (Regex.exec re (String c s) = None) as E.
    { destruct (Regex.exec re (String c s)) as [m|] eqn:E; [|done].
      apply RegexFacts.exec_In in E as [Hin Hp].
      apply Hnone in Hin. cbn [Str.occurs] in Hin. by rewrite Hp in Hin. }
    rewrite RegexFacts.replace_keep by done. f_equal. apply IH.
    intros alt Hin. apply Hnone in Hin. cbn [Str.occurs] in Hin.
    by apply orb_false_iff in Hin as [_ ?].
Qed.

(** Where an identifier occurs, a reference is put in: the text changes. *)
Lemma replace_changes (names : list string) (name s : string) :
  Forall (λ name, identifier name = true) names →
  In name names →
  Str.occurs name s = true →
  Regex.replace names inline_reference s ≠ s.
Proof.
  intros Hids Hin. induction s as [|c s IH]; intros Hocc.
  - rewrite Forall_forall in Hids. apply list_elem_of_In, Hids in Hin.
    destruct name; [done|]. cbn in Hocc. done.
  - destruct (Regex.exec names (String c s)) as [m|] eqn:E.
    + pose proof (RegexFacts.exec_In _ _ _ E) as [Hm Hp].
      rewrite Forall_forall in Hids. apply list_elem_of_In, Hids in Hm.
      destruct m as [|d m]; [done|].
      rewrite StrFacts.prefix_cons in Hp. apply andb_true_iff in Hp as [Hd _].
      apply Ascii.eqb_eq in Hd as ->.
      apply andb_true_iff in Hm as [_ Hm]. cbn in Hm.
      apply andb_true_iff in Hm as [Hc _].
      unfold Regex.replace. cbn [Regex.replace_from]. rewrite E.
      unfold inline_reference. rewrite !StrFacts.app_cons.
      intros [= <- _]. done.
    + rewrite RegexFacts.replace_keep by done. intros [= Hs]. revert Hs. apply IH.
      cbn [Str.occurs] in Hocc. apply orb_true_iff in Hocc as [Hp|?]; [|done].
      pose proof (RegexFacts.exec_first names (String c s)) as Hnone.
      rewrite E in Hnone. by rewrite (Hnone _ Hin) in Hp.
Qed.

(** An entry is left as it is exactly when it is settled. *)
Lemma visit_fixed (tokens : list Metadata.token) (token : Metadata.token) :
  tokens ≠ [] →
  identifiers tokens = true →
  visit (literal tokens) token = token
  ↔ settled_entry (map Metadata.name tokens) token = true.
Proof.
  intros Hne Hids. pose proof (identifiers_names _ Hids) as Hnames.
  destruct token as [name role alias deprecated].
  unfold visit, formatAlias, settled_entry.
  cbn [Metadata.name Metadata.role Metadata.alias Metadata.deprecated].
  assert (map (literal tokens) <$> role = role
          ↔ from_option
              (forallb (λ text, forallb (λ name, negb (Str.occurs name text))
                                        (map Metadata.name tokens)))
              true role = true) as Hrole.
  { destruct role as [role|]; cbn [fmap option_fmap option_map from_option]; [|done].
    rewrite forallb_forall. split.
    - intros [= Hfix]. rewrite map_fixed in Hfix. intros text Htext.
      apply Hfix in Htext. rewrite role_replace in Htext by done.
      apply forallb_forall. intros id Hid.
      destruct (Str.occurs id text) eqn:Hocc; [|done].
      by destruct (replace_changes _ _ _ Hnames Hid Hocc).
    - intros Hnone. f_equal. apply map_fixed. intros text Htext.
      rewrite role_replace by done. apply replace_untouched.
      intros id Hid. specialize (Hnone _ Htext).
      rewrite forallb_forall in Hnone. by apply negb_true_iff, Hnone. }
  assert ((λ alias, if truthy alias then formatTokenName alias else alias) <$> alias = alias
          ↔ from_option
              (λ alias, negb (truthy alias) || String.eqb (formatTokenName alias) alias)
              true alias = true) as Halias.
  { destruct alias as [alias|]; cbn [fmap option_fmap option_map from_option]; [|done].
    destruct (truthy alias); cbn [negb orb]; [|done].
    rewrite String.eqb_eq. split; [by intros [= ->]|by intros ->]. }
  rewrite andb_true_iff, <- Hrole, <- Halias. split.
  - by intros [= -> ->].
  - by intros [-> ->].
Qed.

Lemma visit_identifiers (tokens : list Metadata.token) :
  identifiers (map (visit (literal tokens)) tokens) = identifiers tokens.
Proof.
  unfold identifiers. generalize tokens at 2 3. intros entries.
  induction entries as [|entry entries IH]; [done|]. cbn. by rewrite IH.
Qed.

Lemma exec_irrelevant (before after : list string) (name s : string) :
  String.prefix name s = false →
  Regex.exec (before ++ name :: after) s = Regex.exec (before ++ after) s.
Proof.
  intros Hp. induction before as [|b before IH]; cbn [app Regex.exec].
  - by rewrite Hp.
  - by rewrite IH.
Qed.

(** An alternative that occurs nowhere in the text can be left out. *)
Lemma replace_from_irrelevant (before after : list string) (name : string)
    (f : string → string) (n : nat) (s : string) :
  Str.occurs name s = false →
  Regex.replace_from (before ++ name :: after) f n s
  = Regex.replace_from (before ++ after) f n s.
Proof.
  revert n. induction s as [|c s IH]; intros n Hocc; cbn [Str.occurs] in Hocc;
    apply orb_false_iff in Hocc as [Hp Hs]; destruct n as [|n];
    cbn [Regex.replace_from]; try done.
  - by rewrite exec_irrelevant.
  - rewrite exec_irrelevant by done.
    destruct (Regex.exec (before ++ after) (String c s)) as [m|]; [|by rewrite IH].
    destruct (String.length m); by rewrite IH.
  - by apply IH.
Qed.

Lemma find_irrelevant {A} (p : A → bool) (before after : list A) (x : A) :
  p x = false → List.find p (before ++ x :: after) = List.find p (before ++ after).
Proof.
  intros Hx. induction before as [|b before IH]; cbn [app List.find].
  - by rewrite Hx.
  - by rewrite IH.
Qed.

(** The token file reads the metadata through [tokenData] alone. *)
Lemma tokensFile_ext (m1 m2 : Metadata.t) :
  (∀ token, In token tokenColors → tokenData m1 token = tokenData m2 token) →
  tokensFile m1 = tokensFile m2.
Proof.
  intros Hdata. rewrite !tokensFile_text.
  assert (flat_map (token_lines m1) tokenColors
          = flat_map (token_lines m2) tokenColors) as ->; [|done].
  rewrite !flat_map_concat_map. f_equal. apply map_ext_in.
  intros token Hin. unfold token_lines. by rewrite (Hdata _ Hin).
Qed.

Lemma identifiers_app (xs ys : list Metadata.token) :
  identifiers (xs ++ ys) = identifiers xs && identifiers ys.
Proof. apply forallb_app. Qed.

(** Without the entry, the other entries are transformed as with it, if no
    role text of theirs holds its name. *)
Lemma visit_irrelevant (before after : list Metadata.token)
    (entry token : Metadata.token) :
  identifiers (before ++ entry :: after) = true →
  unmentioned (Metadata.name entry) (before ++ after) = true →
  In token (before ++ after) →
  visit (literal (before ++ entry :: after)) token
  = visit (literal (before ++ after)) token.
Proof.
  intros Hids Hun Hin.
  assert (identifiers (before ++ after) = true) as Hids'.
  { rewrite identifiers_app in Hids. apply andb_true_iff in Hids as [Hb Ha].
    change (identifiers (entry :: after))
      with (identifier (Metadata.name entry) && identifiers after) in Ha.
    apply andb_true_iff in Ha as [_ Ha]. by rewrite identifiers_app, Hb, Ha. }
  unfold unmentioned in Hun. rewrite forallb_forall in Hun.
  specialize (Hun _ Hin). unfold visit. f_equal.
  destruct (Metadata.role token) as [role|]; [|done].
  cbn [fmap option_fmap option_map from_option] in *. f_equal.
  apply map_ext_in. intros text Htext.
  rewrite forallb_forall in Hun. specialize (Hun _ Htext).
  apply negb_true_iff in Hun.
  rewrite !role_replace; [|by destruct before, after|done|by destruct before|done].
  rewrite map_app. cbn [map]. rewrite map_app.
  by apply replace_from_irrelevant.
Qed.


(** *** The loop on the store *)

Lemma alter_fixed {A} (f : A → A) (l : list A) (i : nat) :
  (∀ x, l !! i = Some x → f x = x) → alter f i l = l.
Proof.
  intros Hf. rewrite (list_alter_ext f id l l i) by done. by apply list_alter_id.
Qed.

Lemma transformToken_tokens (replace : string → string) (d : Document.t) (ref : nat) :
  Document.tokens (transformToken replace d ref) = Document.tokens d.
Proof.
  unfold transformToken.
  destruct (Document.objects d !! ref) as [[name [array|] [alias|] deprecated]|];
    cbn; try done; by destruct (truthy alias).
Qed.

(** A visit formats the alias of the object, whatever it finds there. *)
Lemma transformToken_objects (replace : string → string) (d : Document.t) (ref : nat) :
  Document.objects (transformToken replace d ref)
  = alter visit_object ref (Document.objects d).
Proof.
  unfold transformToken.
  destruct (Document.objects d !! ref) as [token|] eqn:E.
  - assert (Document.objects
              match Document.role token with
              | Some role => Document.update_array role replace d
              | None => d
              end = Document.objects d) as Hobjects
      by by destruct (Document.role token).
    destruct token as [name role [alias|] deprecated]; cbn in Hobjects |- *.
    + destruct (truthy alias) eqn:Ht; cbn.
      * rewrite Hobjects. apply list_alter_ext; [|done].
        intros x Hx. rewrite E in Hx. injection Hx as <-.
        unfold visit_object, formatAlias. cbn. by rewrite Ht.
      * rewrite Hobjects. symmetry. apply alter_fixed.
        intros x Hx. rewrite E in Hx. injection Hx as <-.
        unfold visit_object, formatAlias. cbn. by rewrite Ht.
    + rewrite Hobjects. symmetry. apply alter_fixed.
      intros x Hx. rewrite E in Hx. by injection Hx as <-.
  - symmetry. apply alter_fixed. intros x Hx. by rewrite E in Hx.
Qed.

(** A visit rewrites the array of the object, if it has one. *)
Lemma transformToken_arrays (replace : string → string) (d : Document.t) (ref : nat) :
  Document.arrays (transformToken replace d ref)
  = match Document.objects d !! ref ≫= Document.role with
    | Some array => alter (map replace) array (Document.arrays d)
    | None => Document.arrays d
    end.
Proof.
  unfold transformToken.
  destruct (Document.objects d !! ref) as [[name [array|] [alias|] deprecated]|];
    cbn; try done; by destruct (truthy alias).
Qed.

Lemma iter_visit_object (k : nat) (token : Document.object) :
  Nat.iter k visit_object token
  = Document.Object (Document.name token) (Document.role token)
                    (Nat.iter k (fmap formatAlias) (Document.alias token))
                    (Document.deprecated token).
Proof.
  induction k as [|k IH]; [by destruct token|]. by rewrite !Nat.iter_succ, IH.
Qed.

Lemma iter_map {A} (k : nat) (f : A → A) (xs : list A) :
  Nat.iter k (map f) xs = map (Nat.iter k f) xs.
Proof.
  induction k as [|k IH]; [by rewrite map_id|].
  rewrite Nat.iter_succ, IH, map_map. apply map_ext. intros x.
  by rewrite Nat.iter_succ.
Qed.

Lemma visits_cons (ref x : nat) (refs : list nat) :
  visits (x :: refs) ref = (if Nat.eqb ref x then 1 else 0) + visits refs ref.
Proof. unfold visits. cbn [List.filter]. by destruct (Nat.eqb ref x). Qed.

Lemma rewrites_cons (d : Document.t) (x : nat) (refs : list nat) (array : nat) :
  rewrites d (x :: refs) array
  = (if bool_decide (Document.objects d !! x ≫= Document.role = Some array)
     then 1 else 0) + rewrites d refs array.
Proof. unfold rewrites. cbn [List.filter]. by case_bool_decide. Qed.

Lemma loop_tokens (replace : string → string) (refs : list nat) (d : Document.t) :
  Document.tokens (foldl (transformToken replace) d refs) = Document.tokens d.
Proof.
  revert d. induction refs as [|x refs IH]; intros d; [done|].
  cbn [foldl]. by rewrite IH, transformToken_tokens.
Qed.

(** After the loop an object has been visited once for each of its places
    in the sequence. *)
Lemma loop_objects (replace : string → string) (refs : list nat) (d : Document.t)
    (ref : nat) :
  Document.objects (foldl (transformToken replace) d refs) !! ref
  = Nat.iter (visits refs ref) visit_object <$> Document.objects d !! ref.
Proof.
  revert d. induction refs as [|x refs IH]; intros d.
  - cbn. by destruct (Document.objects d !! ref).
  - cbn [foldl]. rewrite IH, transformToken_objects, visits_cons.
    destruct (Nat.eqb_spec ref x) as [->|Hne].
    + rewrite list_lookup_alter_eq. destruct (Document.objects d !! x); [|done].
      cbn [fmap option_fmap option_map Nat.add]. by rewrite Nat.iter_succ_r.
    + by rewrite list_lookup_alter_ne.
Qed.

Lemma loop_role (replace : string → string) (refs : list nat) (d : Document.t)
    (ref : nat) :
  Document.objects (foldl (transformToken replace) d refs) !! ref ≫= Document.role
  = Document.objects d !! ref ≫= Document.role.
Proof.
  rewrite loop_objects. destruct (Document.objects d !! ref) as [token|]; [|done].
  cbn. by rewrite iter_visit_object.
Qed.

Lemma rewrites_ext (d d' : Document.t) (refs : list nat) (array : nat) :
  (∀ ref, Document.objects d' !! ref ≫= Document.role
          = Document.objects d !! ref ≫= Document.role) →
  rewrites d' refs array = rewrites d refs array.
Proof.
  intros Hrole. induction refs as [|x refs IH]; [done|].
  by rewrite !rewrites_cons, IH, Hrole.
Qed.

(** After the loop an array has been rewritten once for each place of the
    sequence whose object holds it. *)
Lemma loop_arrays (replace : string → string) (refs : list nat) (d : Document.t)
    (array : nat) :
  Document.arrays (foldl (transformToken replace) d refs) !! array
  = Nat.iter (rewrites d refs array) (map replace) <$> Document.arrays d !! array.
Proof.
  revert d. induction refs as [|x refs IH]; intros d.
  - cbn. by destruct (Document.arrays d !! array).
  - cbn [foldl]. rewrite IH, transformToken_arrays, rewrites_cons.
    rewrite (rewrites_ext d (transformToken replace d x)).
    2: { intros ref. apply (loop_role replace [x] d ref). }
    destruct (Document.objects d !! x ≫= Document.role) as [a|] eqn:Hx.
    + case_bool_decide as Ha.
      * injection Ha as ->. rewrite list_lookup_alter_eq.
        destruct (Document.arrays d !! array); [|done].
        cbn [fmap option_fmap option_map Nat.add]. by rewrite Nat.iter_succ_r.
      * rewrite list_lookup_alter_ne; [done|]. by intros ->.
    + by rewrite bool_decide_eq_false_2.
Qed.

Lemma loop_texts (replace : string → string) (refs : list nat) (d : Document.t)
    (array : nat) :
  Document.texts (foldl (transformToken replace) d refs) array
  = map (Nat.iter (rewrites d refs array) replace) (Document.texts d array).
Proof.
  unfold Document.texts. rewrite loop_arrays.
  destruct (Document.arrays d !! array) as [texts|]; cbn; [|done].
  apply iter_map.
Qed.

(** How a listed object reads after the loop. *)
Lemma loop_entry (replace : string → string) (refs : list nat) (d : Document.t)
    (ref : nat) :
  Document.entry (foldl (transformToken replace) d refs)
    <$> Document.objects (foldl (transformToken replace) d refs) !! ref
  = (λ token,
       Metadata.Token
         (Document.name token)
         ((λ array, map (Nat.iter (rewrites d refs array) replace)
                        (Document.texts d array)) <$> Document.role token)
         (Nat.iter (visits refs ref) (fmap formatAlias) (Document.alias token))
         (Document.deprecated token))
    <$> Document.objects d !! ref.
Proof.
  rewrite loop_objects. destruct (Document.objects d !! ref) as [token|]; [|done].
  cbn. rewrite iter_visit_object. unfold Document.entry. cbn. f_equal. f_equal.
  destruct (Document.role token) as [array|]; [|done]. cbn. by rewrite loop_texts.
Qed.

Lemma omap_ext_in {A B} (f g : A → option B) (xs : list A) :
  (∀ x, In x xs → f x = g x) → omap f xs = omap g xs.
Proof.
  induction xs as [|x xs IH]; intros Hfg; [done|]. cbn.
  rewrite (Hfg x) by by left. rewrite IH; [done|].
  intros ??. apply Hfg. by right.
Qed.

(** The loop leaves the names alone. *)
Lemma loop_names (replace : string → string) (refs refs' : list nat) (d : Document.t) :
  map Metadata.name (Document.entries (foldl (transformToken replace) d refs) refs')
  = map Metadata.name (Document.entries d refs').
Proof.
  unfold Document.entries.
  change (map Metadata.name) with (fmap (M := list) Metadata.name).
  rewrite !list_fmap_omap. apply omap_ext_in. intros ref _. cbv beta.
  rewrite loop_entry. by destruct (Document.objects d !! ref).
Qed.

Lemma visits_notin (refs : list nat) (ref : nat) :
  ref ∉ refs → visits refs ref = 0.
Proof.
  induction refs as [|x refs IH]; [done|]. intros Hnin.
  rewrite visits_cons, IH.
  - destruct (Nat.eqb_spec ref x) as [->|]; [|done]. destruct Hnin. by left.
  - intros ?. apply Hnin. by right.
Qed.

(** An object listed once is visited once. *)
Lemma visits_once (refs : list nat) (ref : nat) :
  NoDup refs → ref ∈ refs → visits refs ref = 1.
Proof.
  induction 1 as [|x refs Hx Hrefs IH]; intros Hin; [by apply elem_of_nil in Hin|].
  rewrite visits_cons. destruct (Nat.eqb_spec ref x) as [->|Hne].
  - by rewrite visits_notin.
  - apply elem_of_cons in Hin as [?|Hin]; [done|]. by rewrite IH.
Qed.

Lemma roles_cons (d : Document.t) (x : nat) (refs : list nat) :
  Document.roles d (x :: refs)
  = match Document.objects d !! x ≫= Document.role with
    | Some array => array :: Document.roles d refs
    | None => Document.roles d refs
    end.
Proof. done. Qed.

Lemma rewrites_notin (d : Document.t) (refs : list nat) (array : nat) :
  array ∉ Document.roles d refs → rewrites d refs array = 0.
Proof.
  induction refs as [|x refs IH]; [done|]. rewrite roles_cons, rewrites_cons.
  destruct (Document.objects d !! x ≫= Document.role) as [a|].
  - intros Hnin. rewrite IH by (intros ?; apply Hnin; by right).
    rewrite bool_decide_eq_false_2; [done|]. intros [= ->]. apply Hnin. by left.
  - intros Hnin. by rewrite IH, bool_decide_eq_false_2.
Qed.

(** An array held by one listed object is rewritten once. *)
Lemma rewrites_once (d : Document.t) (refs : list nat) (ref array : nat) :
  NoDup (Document.roles d refs) →
  ref ∈ refs →
  Document.objects d !! ref ≫= Document.role = Some array →
  rewrites d refs array = 1.
Proof.
  induction refs as [|x refs IH]; intros Hroles Hin Hrole;
    [by apply elem_of_nil in Hin|].
  rewrite roles_cons in Hroles. rewrite rewrites_cons.
  apply elem_of_cons in Hin as [->|Hin].
  - rewrite Hrole in Hroles |- *. apply NoDup_cons in Hroles as [Hx _].
    by rewrite bool_decide_eq_true_2, rewrites_notin.
  - destruct (Document.objects d !! x ≫= Document.role) as [a|] eqn:Hx.
    + apply NoDup_cons in Hroles as [Ha Hroles].
      rewrite bool_decide_eq_false_2; [by rewrite IH|].
      intros [= ->]. apply Ha. unfold Document.roles.
      apply list_elem_of_omap. by exists ref.
    + rewrite bool_decide_eq_false_2 by done. by rewrite IH.
Qed.

(** An array held by a listed object is rewritten at least once. *)
Lemma rewrites_pos (d : Document.t) (refs : list nat) (ref array : nat) :
  ref ∈ refs →
  Document.objects d !! ref ≫= Document.role = Some array →
  ∃ k, rewrites d refs array = S k.
Proof.
  induction refs as [|x refs IH]; intros Hin Hrole; [by apply elem_of_nil in Hin|].
  rewrite rewrites_cons. apply elem_of_cons in Hin as [->|Hin].
  - rewrite bool_decide_eq_true_2 by done. eauto.
  - destruct (IH Hin Hrole) as [k ->]. case_bool_decide; eauto.
Qed.

(** Where no object and no array is shared, the loop leaves every entry as
    one visit leaves it. *)
Lemma loop_entries (replace : string → string) (refs : list nat) (d : Document.t) :
  NoDup refs →
  NoDup (Document.roles d refs) →
  Document.entries (foldl (transformToken replace) d refs) refs
  = map (visit replace) (Document.entries d refs).
Proof.
  intros Hrefs Hroles. unfold Document.entries.
  change (map (visit replace)) with (fmap (M := list) (visit replace)).
  rewrite list_fmap_omap. apply omap_ext_in. intros ref Hin%list_elem_of_In.
  cbv beta. rewrite loop_entry.
  destruct (Document.objects d !! ref) as [token|] eqn:E; [|done].
  cbn [fmap option_fmap option_map]. f_equal. unfold visit, Document.entry.
  cbn [Metadata.name Metadata.role Metadata.alias Metadata.deprecated].
  rewrite visits_once by done. f_equal.
  destruct (Document.role token) as [array|] eqn:Harray; [|done].
  cbn [fmap option_fmap option_map]. f_equal.
  rewrite (rewrites_once d refs ref array); [done..|]. by rewrite E.
Qed.

(** The expression, [replaceMap] and the test for identifiers read the
    names alone. *)
Lemma identifiers_by_names (tokens tokens' : list Metadata.token) :
  map Metadata.name tokens = map Metadata.name tokens' →
  identifiers tokens = identifiers tokens'.
Proof.
  assert (∀ ts, identifiers ts = forallb identifier (map Metadata.name ts)) as E.
  { intros ts. unfold identifiers. induction ts as [|t ts IH]; [done|].
    cbn. by rewrite IH. }
  intros Hnames. by rewrite !E, Hnames.
Qed.

Lemma literal_by_names (tokens tokens' : list Metadata.token) :
  map Metadata.name tokens = map Metadata.name tokens' →
  literal tokens = literal tokens'.
Proof.
  intros Hnames.
  assert (∀ ts, replaceMap ts
                = foldl (λ replaceMap name, <[name := formatTokenName name]> replaceMap)
                        ∅ (map Metadata.name ts)) as E.
  { intros ts. unfold replaceMap.
    change (map Metadata.name ts) with (Metadata.name <$> ts).
    by rewrite foldl_fmap. }
  unfold literal, namesRegEx, replacer. by rewrite !E, Hnames.
Qed.

Lemma roleReplace_identifiers (tokens : list Metadata.token) :
  identifiers tokens = true → roleReplace tokens = inr (literal tokens).
Proof. intros Hids. unfold roleReplace. by rewrite Hids. Qed.

(** For names that are identifiers the transformation is the loop, with
    the replacement by literals. *)
Lemma transformMetadata_loop (d : Document.t) (refs : list nat) :
  Document.tokens d = Some refs →
  identifiers (Document.entries d refs) = true →
  transformMetadata d
  = inr (foldl (transformToken (literal (Document.entries d refs))) d refs).
Proof.
  intros Htokens Hids. unfold transformMetadata.
  by rewrite Htokens, roleReplace_identifiers.
Qed.

(** C5, as amended.  For every document whose names are identifiers and in
    which no token object is listed twice and no [role] array is held by
    two listed objects, the transformation raises nothing and returns the
    document it was given: the same sequence of the same objects, each with
    the array it had.  Read in order, each entry has its name and its
    deprecation flag unchanged, its alias (when truthy) replaced by the
    formatted name, and each role text rewritten as the scan of the
    specification says: from the left, where an identifier of the metadata
    matches, the first one in identifier order is replaced by its formatted
    name between backticks and after a [$], and the scan goes on after the
    match.  No other list of entries fits this description. *)
Theorem transformMetadata_normalizes (d : Document.t) (refs : list nat) :
  Document.tokens d = Some refs →
  identifiers (Document.entries d refs) = true →
  NoDup refs →
  NoDup (Document.roles d refs) →
  ∃ d',
    transformMetadata d = inr d'
    ∧ Document.tokens d' = Document.tokens d
    ∧ (∀ ref, Document.objects d' !! ref ≫= Document.role
              = Document.objects d !! ref ≫= Document.role)
    ∧ Forall2 (normalized_entry (map Metadata.name (Document.entries d refs)))
              (Document.entries d refs) (Document.entries d' refs)
    ∧ ∀ others,
        Forall2 (normalized_entry (map Metadata.name (Document.entries d refs)))
                (Document.entries d refs) others →
        others = Document.entries d' refs.
Proof.
  intros Htokens Hids Hrefs Hroles.
  set (tokens := Document.entries d refs) in *.
  exists (foldl (transformToken (literal tokens)) d refs).
  split; [by apply transformMetadata_loop|].
  split; [apply loop_tokens|]. split; [intros ref; apply loop_role|].
  rewrite loop_entries by done. fold tokens.
  assert (Forall2 (normalized_entry (map Metadata.name tokens)) tokens
                  (map (visit (literal tokens)) tokens)) as Hnorm.
  { apply Forall2_map_r. intros token Hin. by apply visit_normalized. }
  split; [done|]. intros others Hothers.
  eapply Forall2_functional; [|exact Hothers|exact Hnorm].
  intros token t1 t2. apply normalized_entry_functional.
  eapply Forall_impl; [by apply identifiers_names|]. apply identifier_nonempty.
Qed.

(** *** A second rewriting *)

Lemma ticks_app (s t : string) : ticks (s +:+ t) = ticks s + ticks t.
Proof.
  induction s as [|c s IH]; [done|]. rewrite StrFacts.app_cons. cbn [ticks].
  rewrite IH. lia.
Qed.

Lemma ticks_identifier (name : string) : identifier name = true → ticks name = 0.
Proof.
  intros [_ Hall]%andb_true_iff. induction name as [|c name IH]; [done|].
  cbn in Hall. apply andb_true_iff in Hall as [Hc Hname]. cbn [ticks].
  rewrite (IH Hname). destruct (Ascii.eqb_spec c "`") as [->|]; [done|done].
Qed.

Lemma ticks_reference (name : string) : 2 ≤ ticks (inline_reference name).
Proof.
  unfold inline_reference. rewrite !ticks_app.
  change (ticks "`$") with 1. change (ticks "`") with 1. lia.
Qed.

(** A rewriting takes no backtick away, and where it puts a reference in it
    adds some. *)
Lemma rewritten_ticks (names : list string) (s out : string) :
  Forall (λ name, identifier name = true) names →
  Regex.rewritten names inline_reference s out →
  ticks s ≤ ticks out
  ∧ ((∃ name, In name names ∧ Str.occurs name s = true) → ticks s < ticks out).
Proof.
  intros Hids. rewrite Forall_forall in Hids.
  induction 1 as [|c s out Hnone _ [IH1 IH2]|alt s rest out -> Hsome _ [IH1 _]].
  - split; [done|]. intros (name & Hin & Hocc).
    apply list_elem_of_In, Hids in Hin. by destruct name.
  - cbn [ticks]. split; [lia|]. intros (name & Hin & Hocc).
    pose proof (Hnone name Hin) as Hp. cbn [Str.occurs] in Hocc.
    rewrite Hp in Hocc.
    assert (ticks s < ticks out) by (apply IH2; eauto). lia.
  - destruct Hsome as (before & after & -> & _ & _).
    assert (identifier alt = true) as Halt.
    { apply Hids, list_elem_of_In, in_app_iff. right. by left. }
    rewrite !ticks_app, (ticks_identifier _ Halt).
    pose proof (ticks_reference alt). split; [lia|]. intros _. lia.
Qed.

Lemma iter_ext {A} (f g : A → A) (k : nat) (x : A) :
  (∀ y, f y = g y) → Nat.iter k f x = Nat.iter k g x.
Proof.
  intros Hfg. induction k as [|k IH]; [done|]. by rewrite !Nat.iter_succ, IH, Hfg.
Qed.

(** However often a text that holds a name is rewritten, it does not come
    back to what it was: every rewriting keeps the backticks there are. *)
Lemma iter_replace_changes (names : list string) (name : string) (k : nat)
    (s : string) :
  Forall (λ name, identifier name = true) names →
  In name names →
  Str.occurs name s = true →
  Nat.iter (S k) (Regex.replace names inline_reference) s ≠ s.
Proof.
  intros Hids Hin Hocc.
  assert (Forall (λ alt, alt ≠ EmptyString) names) as Hne.
  { eapply Forall_impl; [done|]. apply identifier_nonempty. }
  assert (∀ n t, ticks t ≤ ticks (Nat.iter n (Regex.replace names inline_reference) t))
    as Hkeep.
  { intros n t. induction n as [|n IH]; [done|]. rewrite Nat.iter_succ.
    pose proof (rewritten_ticks names _ _ Hids
                  (RegexFacts.replace_rewritten names inline_reference
                     (Nat.iter n (Regex.replace names inline_reference) t) Hne))
      as [Hle _]. lia. }
  rewrite Nat.iter_succ_r. intros Hfix.
  pose proof (rewritten_ticks names _ _ Hids
                (RegexFacts.replace_rewritten names inline_reference s Hne))
    as [_ Hlt].
  specialize (Hkeep k (Regex.replace names inline_reference s)).
  rewrite Hfix in Hkeep. assert (ticks s < ticks (Regex.replace names inline_reference s))
    by (apply Hlt; eauto). lia.
Qed.

(** A text that rewritings bring back to itself is one the replacement
    leaves alone. *)
Lemma literal_iter_fixed (tokens : list Metadata.token) (k : nat) (text : string) :
  tokens ≠ [] →
  identifiers tokens = true →
  Nat.iter (S k) (literal tokens) text = text →
  literal tokens text = text.
Proof.
  intros Hne Hids Hfix.
  rewrite (iter_ext _ (Regex.replace (map Metadata.name tokens) inline_reference))
    in Hfix by (intros y; by apply role_replace).
  rewrite role_replace by done. apply replace_untouched. intros name Hin.
  destruct (Str.occurs name text) eqn:Hocc; [|done].
  destruct (iter_replace_changes _ _ k _ (identifiers_names _ Hids) Hin Hocc Hfix).
Qed.

Lemma document_eq (d d' : Document.t) :
  Document.tokens d = Document.tokens d' →
  Document.objects d = Document.objects d' →
  Document.arrays d = Document.arrays d' →
  d = d'.
Proof. destruct d, d'. cbn. by intros -> -> ->. Qed.

(** A visit that changes nothing in what the object reads leaves the
    document as it is. *)
Lemma transformToken_noop (replace : string → string) (d : Document.t) (ref : nat) :
  (∀ token, Document.objects d !! ref = Some token →
            visit replace (Document.entry d token) = Document.entry d token) →
  transformToken replace d ref = d.
Proof.
  intros Hfix. apply document_eq.
  - apply transformToken_tokens.
  - rewrite transformToken_objects. apply alter_fixed. intros token Htoken.
    apply Hfix in Htoken. apply (f_equal Metadata.alias) in Htoken.
    destruct token as [name role alias deprecated]. unfold visit_object.
    cbn in Htoken |- *. by rewrite Htoken.
  - rewrite transformToken_arrays.
    destruct (Document.objects d !! ref) as [token|] eqn:Htoken; [|done].
    cbn [mbind option_bind].
    destruct (Document.role token) as [array|] eqn:Harray; [|done].
    apply alter_fixed. intros texts Htexts.
    specialize (Hfix _ eq_refl). apply (f_equal Metadata.role) in Hfix.
    unfold visit, Document.entry in Hfix. cbn in Hfix. rewrite Harray in Hfix.
    cbn in Hfix. injection Hfix as Hfix. unfold Document.texts in Hfix.
    by rewrite Htexts in Hfix.
Qed.

Lemma loop_noop (replace : string → string) (d : Document.t) (refs : list nat) :
  (∀ ref token, ref ∈ refs → Document.objects d !! ref = Some token →
                visit replace (Document.entry d token) = Document.entry d token) →
  foldl (transformToken replace) d refs = d.
Proof.
  induction refs as [|x refs IH]; intros Hfix; [done|]. cbn [foldl].
  rewrite transformToken_noop.
  - apply IH. intros ref token Hin. apply Hfix. by right.
  - intros token. apply Hfix. by left.
Qed.

Lemma entries_elem (d : Document.t) (refs : list nat) (entry : Metadata.token) :
  entry ∈ Document.entries d refs
  ↔ ∃ ref token, ref ∈ refs ∧ Document.objects d !! ref = Some token
                 ∧ entry = Document.entry d token.
Proof.
  unfold Document.entries. rewrite list_elem_of_omap. split.
  - intros (ref & Hin & Hentry).
    destruct (Document.objects d !! ref) as [token|] eqn:E; [|done].
    injection Hentry as <-. by exists ref, token.
  - intros (ref & token & Hin & Htoken & ->). exists ref. by rewrite Htoken.
Qed.

(** C6, as amended.  For a document whose names are identifiers the
    transformation returns, and a second application returns what the first
    returned if the first result is settled: none of the identifiers occurs
    in any of its role texts and each of its aliases that counts as present
    is a fixed point of the formatter.  When every place of the sequence
    holds an object of its own (arrays may be shared) this is the only case:
    the second application returns what the first returned exactly when the
    first result is settled. *)
Theorem second_pass_noop_iff (d : Document.t) (refs : list nat) :
  Document.tokens d = Some refs →
  identifiers (Document.entries d refs) = true →
  ∃ d',
    transformMetadata d = inr d'
    ∧ (settled (Document.entries d' refs) = true →
       transformMetadata_twice d = transformMetadata d)
    ∧ (NoDup refs →
       transformMetadata_twice d = transformMetadata d
       ↔ settled (Document.entries d' refs) = true).
Proof.
  intros Htokens Hids.
  set (replace := literal (Document.entries d refs)).
  set (d' := foldl (transformToken replace) d refs).
  assert (transformMetadata d = inr d') as Hfirst by by apply transformMetadata_loop.
  assert (map Metadata.name (Document.entries d' refs)
          = map Metadata.name (Document.entries d refs)) as Hnames
    by apply loop_names.
  assert (identifiers (Document.entries d' refs) = true) as Hids'
    by by rewrite (identifiers_by_names _ _ Hnames).
  assert (literal (Document.entries d' refs) = replace) as Hreplace
    by apply (literal_by_names _ _ Hnames).
  assert (transformMetadata_twice d = inr (foldl (transformToken replace) d' refs))
    as Htwice.
  { unfold transformMetadata_twice. rewrite Hfirst.
    rewrite (transformMetadata_loop d' refs), Hreplace; [done| |done].
    unfold d'. by rewrite loop_tokens. }
  assert (∀ entry, entry ∈ Document.entries d' refs →
            visit replace entry = entry
            ↔ settled_entry (map Metadata.name (Document.entries d' refs)) entry = true)
    as Hentry.
  { intros entry Hin. rewrite <- Hreplace. apply visit_fixed; [|done].
    intros E. rewrite E in Hin. by apply elem_of_nil in Hin. }
  assert (settled (Document.entries d' refs) = true →
          foldl (transformToken replace) d' refs = d') as Hif.
  { intros Hsettled. unfold settled in Hsettled. rewrite forallb_forall in Hsettled.
    apply loop_noop. intros ref token Hin Htoken.
    assert (Document.entry d' token ∈ Document.entries d' refs) as Hlisted
      by (apply entries_elem; eauto).
    apply Hentry; [done|]. by apply Hsettled, list_elem_of_In. }
  exists d'. split; [done|]. rewrite Htwice, Hfirst.
  split; [intros Hsettled; by rewrite Hif|]. intros Hrefs.
  split; [|intros Hsettled; by rewrite Hif].
  intros [= Hfix]. unfold settled. apply forallb_forall.
  intros entry Hin%list_elem_of_In. apply Hentry; [done|].
  apply entries_elem in Hin as (ref & token & Href & Htoken & ->).
  unfold visit, Document.entry.
  cbn [Metadata.name Metadata.role Metadata.alias Metadata.deprecated]. f_equal.
  - destruct (Document.role token) as [array|] eqn:Harray; [|done].
    cbn [fmap option_fmap option_map]. f_equal.
    destruct (rewrites_pos d' refs ref array Href) as [k Hk];
      [by rewrite Htoken|].
    pose proof (loop_texts replace refs d' array) as Htexts.
    rewrite Hfix, Hk in Htexts. symmetry in Htexts.
    apply map_fixed. intros text Htext.
    rewrite <- Hreplace. apply (literal_iter_fixed _ k); [|done|].
    + intros E. assert (Document.entry d' token ∈ Document.entries d' refs) as Hl
        by (apply entries_elem; eauto). rewrite E in Hl. by apply elem_of_nil in Hl.
    + rewrite Hreplace. by apply (proj1 (map_fixed _ _) Htexts).
  - pose proof (loop_objects replace refs d' ref) as Hobject.
    rewrite Hfix, Htoken, visits_once in Hobject by done.
    injection Hobject as Hobject. apply (f_equal Document.alias) in Hobject.
    by destruct token.
Qed.

(** An entry whose name is none of the colour tokens is never found. *)
Lemma absent_entry_unread (before after : list Metadata.token)
    (entry : Metadata.token) (token : string) :
  Metadata.name entry ≠ token →
  tokenData (Metadata.Make (Some (before ++ entry :: after))) token
  = tokenData (Metadata.Make (Some (before ++ after))) token.
Proof.
  intros Hname. unfold tokenData. cbn [Metadata.tokens mbind option_bind].
  apply find_irrelevant. by apply String.eqb_neq.
Qed.

Lemma NoDup_without {A} (l1 l2 l3 : list A) :
  NoDup (l1 ++ l2 ++ l3) → NoDup (l1 ++ l3).
Proof.
  intros Hall. apply (sublist_NoDup _ _ Hall).
  apply sublist_app; [done|]. by apply sublist_inserts_l.
Qed.

Lemma entries_app (d : Document.t) (refs1 refs2 : list nat) :
  Document.entries d (refs1 ++ refs2)
  = Document.entries d refs1 ++ Document.entries d refs2.
Proof. apply omap_app. Qed.

Lemma roles_app (d : Document.t) (refs1 refs2 : list nat) :
  Document.roles d (refs1 ++ refs2) = Document.roles d refs1 ++ Document.roles d refs2.
Proof. apply omap_app. Qed.

(** The document without one place of its sequence. *)
Lemma without_separate (d : Document.t) (before after : list nat) (ref : nat) :
  NoDup (before ++ ref :: after) →
  NoDup (Document.roles d (before ++ ref :: after)) →
  NoDup (before ++ after) ∧ NoDup (Document.roles d (before ++ after)).
Proof.
  intros Hrefs Hroles. split.
  - by apply (NoDup_without before [ref] after).
  - rewrite roles_app. rewrite roles_app in Hroles.
    change (ref :: after) with ([ref] ++ after) in Hroles.
    rewrite roles_app in Hroles. by apply NoDup_without in Hroles.
Qed.

(** The document and the document without one place of its sequence, both
    transformed, where nothing is shared. *)
Lemma without_entry (d : Document.t) (before after : list nat) (ref : nat)
    (object : Document.object) :
  Document.tokens d = Some (before ++ ref :: after) →
  Document.objects d !! ref = Some object →
  identifiers (Document.entries d (before ++ ref :: after)) = true →
  NoDup (before ++ ref :: after) →
  NoDup (Document.roles d (before ++ ref :: after)) →
  ∃ d1 d2 full less,
    full = Document.entries d before
           ++ Document.entry d object :: Document.entries d after
    ∧ less = Document.entries d before ++ Document.entries d after
    ∧ identifiers full = true
    ∧ transformMetadata d = inr d1
    ∧ transformMetadata
        (Document.Make (Some (before ++ after)) (Document.objects d)
                       (Document.arrays d)) = inr d2
    ∧ Document.read d1 = Metadata.Make (Some (map (visit (literal full)) full))
    ∧ Document.read d2 = Metadata.Make (Some (map (visit (literal less)) less)).
Proof.
  intros Htokens Hobject Hids Hrefs Hroles.
  set (d_less := Document.Make (Some (before ++ after)) (Document.objects d)
                               (Document.arrays d)).
  destruct (without_separate d before after ref Hrefs Hroles) as [Hrefs' Hroles'].
  assert (Document.entries d (before ++ ref :: after)
          = Document.entries d before
            ++ Document.entry d object :: Document.entries d after) as Hfull.
  { rewrite entries_app. f_equal. unfold Document.entries at 1.
    cbn. by rewrite Hobject. }
  assert (identifiers (Document.entries d (before ++ after)) = true) as Hids'.
  { rewrite Hfull, identifiers_app in Hids. apply andb_true_iff in Hids as [Hb Ha].
    change (identifiers (Document.entry d object :: Document.entries d after))
      with (identifier (Document.name object) && identifiers (Document.entries d after))
      in Ha.
    apply andb_true_iff in Ha as [_ Ha]. by rewrite entries_app, identifiers_app, Hb, Ha. }
  eexists _, _, _, _. split; [reflexivity|]. split; [reflexivity|].
  split; [by rewrite <- Hfull|].
  split; [by apply transformMetadata_loop|].
  split; [by apply (transformMetadata_loop d_less (before ++ after))|]. split.
  - unfold Document.read. rewrite loop_tokens, Htokens. cbn.
    by rewrite loop_entries, Hfull.
  - unfold Document.read. rewrite loop_tokens. cbn.
    rewrite (loop_entries _ (before ++ after) d_less) by done.
    change (Document.entries d_less (before ++ after))
      with (Document.entries d (before ++ after)).
    by rewrite entries_app.
Qed.

(** C7, as amended.  A metadata entry whose name is none of the colour
    tokens is never the entry that the token file looks up and is not
    emitted: whatever metadata the script holds after the transformation,
    no colour token finds an entry of that name, and the three texts are
    those of the same metadata without the entry.  Leaving the entry out of
    the document before the transformation gives the same three texts if,
    moreover, no role text of the other entries holds its name, no object
    is listed twice and no [role] array is held by two listed objects, the
    names being identifiers.  (The name of the entry is one of the
    alternatives of the expression, so where a role text holds it, the text
    is rewritten.) *)
Theorem absent_entry_inert (name : string) :
  ¬ In name tokenColors →
  (∀ (before after : list Metadata.token) (entry : Metadata.token),
     Metadata.name entry = name →
     (∀ token, In token tokenColors →
        tokenData (Metadata.Make (Some (before ++ entry :: after))) token
        = tokenData (Metadata.Make (Some (before ++ after))) token
        ∧ ∀ found,
            tokenData (Metadata.Make (Some (before ++ entry :: after))) token
            = Some found →
            Metadata.name found ≠ name)
     ∧ ∀ path,
         source_of (Metadata.Make (Some (before ++ entry :: after))) path
         = source_of (Metadata.Make (Some (before ++ after))) path)
  ∧ (∀ (d : Document.t) (before after : list nat) (ref : nat)
       (object : Document.object),
       Document.tokens d = Some (before ++ ref :: after) →
       Document.objects d !! ref = Some object →
       Document.name object = name →
       identifiers (Document.entries d (before ++ ref :: after)) = true →
       NoDup (before ++ ref :: after) →
       NoDup (Document.roles d (before ++ ref :: after)) →
       unmentioned name (Document.entries d (before ++ after)) = true →
       ∃ d1 d2,
         transformMetadata d = inr d1
         ∧ transformMetadata
             (Document.Make (Some (before ++ after)) (Document.objects d)
                            (Document.arrays d)) = inr d2
         ∧ (∀ token, In token tokenColors →
              tokenData (Document.read d1) token = tokenData (Document.read d2) token)
         ∧ ∀ path, source_of (Document.read d1) path
                   = source_of (Document.read d2) path).
Proof.
  intros Habsent.
  assert (∀ (before after : list Metadata.token) (entry : Metadata.token),
            Metadata.name entry = name →
            ∀ token, In token tokenColors →
              tokenData (Metadata.Make (Some (before ++ entry :: after))) token
              = tokenData (Metadata.Make (Some (before ++ after))) token) as Hunread.
  { intros before after entry Hname token Hin. apply absent_entry_unread.
    rewrite Hname. by intros <-. }
  split.
  - intros before after entry Hname. split.
    + intros token Hin. split; [by apply Hunread|].
      intros found Hfound%tokenData_entry.
      destruct Hfound as (_ & _ & _ & Hfound). rewrite Hfound. by intros <-.
    + intros path. unfold source_of.
      by rewrite (tokensFile_ext _ _ (Hunread before after entry Hname)).
  - intros d before after ref object Htokens Hobject Hname Hids Hrefs Hroles Hun.
    destruct (without_entry d before after ref object Htokens Hobject Hids Hrefs Hroles)
      as (d1 & d2 & full & less & -> & -> & Hfull & E1 & E2 & Hread1 & Hread2).
    rewrite entries_app in Hun. rewrite <- Hname in Hun.
    change (Document.name object) with (Metadata.name (Document.entry d object)) in Hun.
    assert (∀ token, In token tokenColors →
              tokenData (Document.read d1) token = tokenData (Document.read d2) token)
      as Hdata.
    { intros token Hin. rewrite Hread1, Hread2, !map_app. cbn [map].
      rewrite (map_ext_in _ (visit (literal (Document.entries d before
                                             ++ Document.entries d after)))
                          (Document.entries d before)).
      2: { intros entry Hentry. apply visit_irrelevant; [done..|].
           apply in_app_iff. by left. }
      rewrite (map_ext_in _ (visit (literal (Document.entries d before
                                             ++ Document.entries d after)))
                          (Document.entries d after)).
      2: { intros entry Hentry. apply visit_irrelevant; [done..|].
           apply in_app_iff. by right. }
      by apply Hunread. }
    exists d1, d2. split; [done|]. split; [done|]. split; [done|].
    intros path. unfold source_of. by rewrite (tokensFile_ext _ _ Hdata).
Qed.

End Normalizer.

Section Effects.

Context `{Env}.

Local Open Scope js_scope.

(** The three written paths differ from each other. *)
Lemma entrypoints_distinct :
  TOKENS_ENTRYPOINT ≠ MIXINS_ENTRYPOINT ∧
  TOKENS_ENTRYPOINT ≠ MAPS_ENTRYPOINT ∧
  MIXINS_ENTRYPOINT ≠ MAPS_ENTRYPOINT.
Proof.
  unfold TOKENS_ENTRYPOINT, MIXINS_ENTRYPOINT, MAPS_ENTRYPOINT.
  repeat split; intros E; apply (inj (String.app SCSS_DIR)) in E; discriminate E.
Qed.

(** What the [try] block leaves in [metadata], case by case. *)
Lemma loadMetadata_cases (w : world) :
  loadMetadata w =
    match files w !! METADATA_FILE with
    | None => (inr Metadata.empty, record (console_error (ENOENT METADATA_FILE)) w)
    | Some source =>
        match yaml_safeLoad source with
        | inl e => (inr Metadata.empty, record (console_error e) w)
        | inr document =>
            match transformMetadata document with
            | inl e => (inr Metadata.empty, record (console_error e) w)
            | inr metadata => (inr (Document.read metadata), w)
            end
        end
    end.
Proof.
  unfold loadMetadata, try_catch, bind, readFileSync.
  destruct (files w !! METADATA_FILE) as [source|]; [|done].
  destruct (yaml_safeLoad source) as [e|document]; [done|]. cbn.
  by destruct (transformMetadata document).
Qed.

(** The block never throws and touches nothing but the trace. *)
Lemma loadMetadata_total (w : world) :
  ∃ metadata w',
    loadMetadata w = (inr metadata, w') ∧
    files w' = files w ∧ denied w' = denied w.
Proof.
  rewrite loadMetadata_cases.
  destruct (files w !! METADATA_FILE) as [source|]; [|by eauto].
  destruct (yaml_safeLoad source) as [e|document]; [by eauto|].
  destruct (transformMetadata document); by eauto.
Qed.

(** What it returns depends on the metadata file alone. *)
Lemma loadMetadata_same_input (w1 w2 : world) :
  files w1 !! METADATA_FILE = files w2 !! METADATA_FILE →
  (loadMetadata w1).1 = (loadMetadata w2).1.
Proof.
  intros E. rewrite !loadMetadata_cases, E.
  destruct (files w2 !! METADATA_FILE) as [source|]; [|done].
  destruct (yaml_safeLoad source) as [e|document]; [done|].
  by destruct (transformMetadata document).
Qed.

Lemma emit_ok (path source formatted : string) {A} (k : M A) (w : world) :
  prettier_format source = inr formatted →
  path ∉ denied w →
  (formatted <- prettier source;; writeFile path formatted;; k) w
  = k (emitted path source formatted w).
Proof.
  intros Hf Hd. unfold bind, prettier, log, lift, writeFile. rewrite Hf. cbn.
  by destruct (decide (path ∈ denied w)).
Qed.

Lemma emit_throws (path source : string) (e : error) {A} (k : M A) (w : world) :
  prettier_format source = inl e →
  (formatted <- prettier source;; writeFile path formatted;; k) w
  = (inl e, record (prettier_call source) w).
Proof. intros Hf. unfold bind, prettier, log, lift. by rewrite Hf. Qed.

Lemma emit_denied (path source formatted : string) {A} (k : M A) (w : world) :
  prettier_format source = inr formatted →
  path ∈ denied w →
  (formatted <- prettier source;; writeFile path formatted;; k) w
  = (inl (EACCES path), record (prettier_call source) w).
Proof.
  intros Hf Hd. unfold bind, prettier, log, lift, writeFile. rewrite Hf. cbn.
  by destruct (decide (path ∈ denied w)).
Qed.

End Effects.

Section Runs.

Context `{Env}.

Local Open Scope js_scope.

Lemma build_unfold (w w' : world) (metadata : Metadata.t) :
  loadMetadata (record (reporter_info "Building scss files for themes...") w)
    = (inr metadata, w') →
  build w = writeFiles metadata w'.
Proof. intros E. unfold build, bind, log. by rewrite E. Qed.

Lemma writeFiles_ok (metadata : Metadata.t) (tokens mixins maps : string) (w : world) :
  SCSS_DIR ∉ denied w →
  TOKENS_ENTRYPOINT ∉ denied w →
  MIXINS_ENTRYPOINT ∉ denied w →
  MAPS_ENTRYPOINT ∉ denied w →
  prettier_format (tokensFile metadata) = inr tokens →
  prettier_format mixinsFile = inr mixins →
  prettier_format themeMapsFile = inr maps →
  writeFiles metadata w = (inr tt, written metadata tokens mixins maps w).
Proof.
  intros Hd Ht Hm Hp Ft Fm Fp. unfold writeFiles.
  unfold bind at 1. unfold ensureDir. destruct (decide (SCSS_DIR ∈ denied w)); [done|].
  rewrite (emit_ok _ _ _ _ _ Ft) by done.
  rewrite (emit_ok _ _ _ _ _ Fm) by done.
  rewrite (emit_ok _ _ _ _ _ Fp) by done.
  done.
Qed.

(** A run that returns has formatted and written the three texts. *)
Lemma writeFiles_inv (metadata : Metadata.t) (w w' : world) :
  writeFiles metadata w = (inr tt, w') →
  ∃ tokens mixins maps,
    prettier_format (tokensFile metadata) = inr tokens ∧
    prettier_format mixinsFile = inr mixins ∧
    prettier_format themeMapsFile = inr maps ∧
    w' = written metadata tokens mixins maps w.
Proof.
  unfold writeFiles. unfold bind at 1. unfold ensureDir.
  destruct (decide (SCSS_DIR ∈ denied w)); [done|].
  destruct (prettier_format (tokensFile metadata)) as [e|tokens] eqn:Ft;
    [by rewrite (emit_throws _ _ _ _ _ Ft)|].
  destruct (decide (TOKENS_ENTRYPOINT ∈ denied w));
    [by rewrite (emit_denied _ _ _ _ _ Ft)|].
  rewrite (emit_ok _ _ _ _ _ Ft) by done.
  destruct (prettier_format mixinsFile) as [e|mixins] eqn:Fm;
    [by rewrite (emit_throws _ _ _ _ _ Fm)|].
  destruct (decide (MIXINS_ENTRYPOINT ∈ denied w));
    [by rewrite (emit_denied _ _ _ _ _ Fm)|].
  rewrite (emit_ok _ _ _ _ _ Fm) by done.
  destruct (prettier_format themeMapsFile) as [e|maps] eqn:Fp;
    [by rewrite (emit_throws _ _ _ _ _ Fp)|].
  destruct (decide (MAPS_ENTRYPOINT ∈ denied w));
    [by rewrite (emit_denied _ _ _ _ _ Fp)|].
  rewrite (emit_ok _ _ _ _ _ Fp) by done.
  intros [= <-]. by eauto 10.
Qed.

Lemma written_files (metadata : Metadata.t) (tokens mixins maps : string) (w : world) :
  files (written metadata tokens mixins maps w) !! TOKENS_ENTRYPOINT = Some tokens ∧
  files (written metadata tokens mixins maps w) !! MIXINS_ENTRYPOINT = Some mixins ∧
  files (written metadata tokens mixins maps w) !! MAPS_ENTRYPOINT = Some maps.
Proof.
  destruct entrypoints_distinct as (Htm & Htp & Hmp).
  unfold written, emitted, store, record. cbn.
  repeat split.
  - rewrite !lookup_insert_ne by done. apply lookup_insert_eq.
  - rewrite lookup_insert_ne by done. apply lookup_insert_eq.
  - by rewrite lookup_insert_eq.
Qed.

Lemma calls_of_intro {A} (m : M A) (w : world) (calls : list call) :
  trace (m w).2 = trace w ++ calls → calls_of m w = calls.
Proof. intros E. unfold calls_of. rewrite E. apply drop_app_length. Qed.

Lemma source_of_entrypoints (metadata : Metadata.t) :
  source_of metadata TOKENS_ENTRYPOINT = Some (tokensFile metadata) ∧
  source_of metadata MIXINS_ENTRYPOINT = Some mixinsFile ∧
  source_of metadata MAPS_ENTRYPOINT = Some themeMapsFile.
Proof.
  destruct entrypoints_distinct as (Htm & Htp & Hmp). unfold source_of.
  repeat split; repeat case_decide; congruence.
Qed.

Local Ltac trace_leaf :=
  eexists; split;
  [ unfold emitted, store, record; cbn; rewrite <- ?(assoc_L (++)); cbn;
    reflexivity
  | intros path content Hin; set_unfold in Hin;
    repeat (destruct Hin as [Hin|Hin]; try discriminate Hin);
    try done;
    injection Hin as -> ->; eauto ].

(** Whatever [writeFiles] writes is the formatted text of that file. *)
Lemma writeFiles_calls (metadata : Metadata.t) (w : world) :
  ∃ calls,
    trace (writeFiles metadata w).2 = trace w ++ calls ∧
    ∀ path content, fs_writeFile path content ∈ calls →
      ∃ source, source_of metadata path = Some source ∧
                prettier_format source = inr content.
Proof.
  destruct (source_of_entrypoints metadata) as (St & Sm & Sp).
  unfold writeFiles. unfold bind at 1. unfold ensureDir.
  destruct (decide (SCSS_DIR ∈ denied w)).
  { exists []. split; [by rewrite app_nil_r|]. intros ?? Hin. by set_unfold in Hin. }
  destruct (prettier_format (tokensFile metadata)) as [e|tokens] eqn:Ft.
  { rewrite (emit_throws _ _ _ _ _ Ft). trace_leaf. }
  destruct (decide (TOKENS_ENTRYPOINT ∈ denied w)).
  { rewrite (emit_denied _ _ _ _ _ Ft) by done. trace_leaf. }
  rewrite (emit_ok _ _ _ _ _ Ft) by done.
  destruct (prettier_format mixinsFile) as [e|mixins] eqn:Fm.
  { rewrite (emit_throws _ _ _ _ _ Fm). trace_leaf. }
  destruct (decide (MIXINS_ENTRYPOINT ∈ denied w)).
  { rewrite (emit_denied _ _ _ _ _ Fm) by done. trace_leaf. }
  rewrite (emit_ok _ _ _ _ _ Fm) by done.
  destruct (prettier_format themeMapsFile) as [e|maps] eqn:Fp.
  { rewrite (emit_throws _ _ _ _ _ Fp). trace_leaf. }
  destruct (decide (MAPS_ENTRYPOINT ∈ denied w)).
  { rewrite (emit_denied _ _ _ _ _ Fp) by done. trace_leaf. }
  rewrite (emit_ok _ _ _ _ _ Fp) by done.
  unfold log. trace_leaf.
Qed.

Lemma loadMetadata_calls (w w' : world) (metadata : Metadata.t) :
  loadMetadata w = (inr metadata, w') →
  ∃ calls, trace w' = trace w ++ calls ∧
           ∀ path content, fs_writeFile path content ∉ calls.
Proof.
  rewrite loadMetadata_cases. intros E.
  assert (w' = w ∨ ∃ e, w' = record (console_error e) w) as [->| [e ->]].
  { destruct (files w !! METADATA_FILE) as [source|]; [|injection E; eauto].
    destruct (yaml_safeLoad source) as [e|document]; [injection E; eauto|].
    destruct (transformMetadata document); injection E; eauto. }
  - exists []. split; [by rewrite app_nil_r|]. intros ?? Hin. by set_unfold in Hin.
  - exists [console_error e]. split; [done|]. intros ?? Hin. set_unfold in Hin.
    by destruct Hin.
Qed.

(** Every file the script writes holds the formatted text that the loaded
    metadata gives for that path. *)
Lemma main_writes (w w' : world) (metadata : Metadata.t) (path content : string) :
  loadMetadata (record (reporter_info "Building scss files for themes...") w)
    = (inr metadata, w') →
  fs_writeFile path content ∈ calls_of main w →
  ∃ source, source_of metadata path = Some source ∧
            prettier_format source = inr content.
Proof.
  intros E.
  destruct (loadMetadata_calls _ _ _ E) as (c1 & T1 & N1).
  destruct (writeFiles_calls metadata w') as (c2 & T2 & W2).
  assert (∃ c3, trace (main w).2 = trace w ++ [reporter_info "Building scss files for themes..."] ++ c1 ++ c2 ++ c3
                ∧ ∀ path content, fs_writeFile path content ∉ c3) as (c3 & T3 & N3).
  { unfold main, try_catch. rewrite (build_unfold _ _ _ E).
    destruct (writeFiles metadata w') as [[e|[]] w''] eqn:R; cbn in T2 |- *.
    - exists [console_error e]. split.
      + rewrite T2, T1. cbn. by rewrite <- !(assoc_L (++)).
      + intros ?? Hin. set_unfold in Hin. by destruct Hin.
    - exists []. split.
      + rewrite T2, T1. cbn. by rewrite <- !(assoc_L (++)), app_nil_r.
      + intros ?? Hin. by set_unfold in Hin. }
  rewrite (calls_of_intro _ _ _ T3). intros Hin.
  rewrite !elem_of_app in Hin. destruct Hin as [Hin|[Hin|[Hin|Hin]]].
  - set_unfold in Hin. by destruct Hin.
  - by apply N1 in Hin.
  - by apply W2.
  - by apply N3 in Hin.
Qed.

(** C1.  Reproducibility: two runs that read the same metadata document
    write the same bytes.  Whatever the earlier contents of the file system
    and of the trace, (a) any text one run writes to a path is the text the
    other run writes to that path, if it writes there at all, and (b) when
    both runs of [build] return, each of the three artifacts exists and is
    the same in both file systems.  The token list, the themes, the parser
    and the formatter are those of the environment, shared by both runs. *)
Theorem build_reproducible (w1 w2 : world) :
  files w1 !! METADATA_FILE = files w2 !! METADATA_FILE →
  (∀ path content1 content2,
     fs_writeFile path content1 ∈ calls_of main w1 →
     fs_writeFile path content2 ∈ calls_of main w2 →
     content1 = content2) ∧
  (∀ w1' w2',
     build w1 = (inr tt, w1') →
     build w2 = (inr tt, w2') →
     ∀ path,
       path ∈ [TOKENS_ENTRYPOINT; MIXINS_ENTRYPOINT; MAPS_ENTRYPOINT] →
       is_Some (files w1' !! path) ∧ files w1' !! path = files w2' !! path).
Proof.
  intros Hsame.
  set (i1 := record (reporter_info "Building scss files for themes...") w1).
  set (i2 := record (reporter_info "Building scss files for themes...") w2).
  destruct (loadMetadata_total i1) as (m1 & v1 & E1 & _).
  destruct (loadMetadata_total i2) as (m2 & v2 & E2 & _).
  assert (m1 = m2) as <-.
  { pose proof (loadMetadata_same_input i1 i2 Hsame) as E.
    rewrite E1, E2 in E. by injection E. }
  split.
  - intros path c1 c2 H1 H2.
    destruct (main_writes _ _ _ _ _ E1 H1) as (s1 & S1 & F1).
    destruct (main_writes _ _ _ _ _ E2 H2) as (s2 & S2 & F2).
    congruence.
  - intros w1' w2' B1 B2 path Hpath.
    rewrite (build_unfold _ _ _ E1) in B1. rewrite (build_unfold _ _ _ E2) in B2.
    apply writeFiles_inv in B1 as (t1 & x1 & p1 & Ft1 & Fx1 & Fp1 & ->).
    apply writeFiles_inv in B2 as (t2 & x2 & p2 & Ft2 & Fx2 & Fp2 & ->).
    assert (t1 = t2) as <- by congruence.
    assert (x1 = x2) as <- by congruence.
    assert (p1 = p2) as <- by congruence.
    destruct (written_files m1 t1 x1 p1 v1) as (At & Ax & Ap).
    destruct (written_files m1 t1 x1 p1 v2) as (Bt & Bx & Bp).
    set_unfold in Hpath. destruct Hpath as [->|[->|[->|[]]]].
    + by rewrite At, Bt.
    + by rewrite Ax, Bx.
    + by rewrite Ap, Bp.
Qed.

Lemma main_returns (w w' : world) :
  build w = (inr tt, w') → main w = (inr tt, w').
Proof. intros E. unfold main, try_catch. by rewrite E. Qed.

Lemma main_catches (w w' : world) (e : error) :
  build w = (inl e, w') → main w = (inr tt, record (console_error e) w').
Proof. intros E. unfold main, try_catch. by rewrite E. Qed.

(** C8.  When the metadata file cannot be read, or is read and cannot be
    parsed, the error of that failure (the one [readFileSync] raised for
    the missing file, or the one [yaml.safeLoad] raised for the text of the
    file) is printed, once and before anything is written, and the run goes
    on with the empty metadata set: the token file holds, for every colour
    token, the fixed annotation block and the declaration line and nothing
    else, and if the formatter and the file system raise nothing the three
    files are written and the run ends with the success message, its calls
    being the start message, the printed error, and the calls of a clean
    run. *)
Theorem metadata_failure_degrades (w : world) (e : error) :
  (files w !! METADATA_FILE = None ∧ e = ENOENT METADATA_FILE ∨
   ∃ source, files w !! METADATA_FILE = Some source ∧
             yaml_safeLoad source = inl e) →
  let w0 := record (reporter_info "Building scss files for themes...") w in
  let w' := record (console_error e) w0 in
  loadMetadata w0 = (inr Metadata.empty, w')
  ∧ build w = writeFiles Metadata.empty w'
  ∧ tokensFile Metadata.empty =
      FILE_BANNER +:+ "
@import './theme-maps';

" +:+ Str.unlines (flat_map (λ token,
                   [EmptyString; EmptyString; "/// @type Color";
                    "/// @access public"; "/// @group @carbon/themes";
                    declaration token]) tokenColors)
  ∧ ∀ tokens mixins maps,
      SCSS_DIR ∉ denied w →
      TOKENS_ENTRYPOINT ∉ denied w →
      MIXINS_ENTRYPOINT ∉ denied w →
      MAPS_ENTRYPOINT ∉ denied w →
      prettier_format (tokensFile Metadata.empty) = inr tokens →
      prettier_format mixinsFile = inr mixins →
      prettier_format themeMapsFile = inr maps →
      main w = (inr tt, written Metadata.empty tokens mixins maps w')
      ∧ calls_of main w =
          [reporter_info "Building scss files for themes...";
           console_error e;
           fs_ensureDir SCSS_DIR;
           prettier_call (tokensFile Metadata.empty);
           fs_writeFile TOKENS_ENTRYPOINT tokens;
           prettier_call mixinsFile;
           fs_writeFile MIXINS_ENTRYPOINT mixins;
           prettier_call themeMapsFile;
           fs_writeFile MAPS_ENTRYPOINT maps;
           reporter_success "Done! 🎉"].
Proof.
  intros Hfail w0 w'.
  assert (loadMetadata w0 = (inr Metadata.empty, w')) as Hload.
  { rewrite loadMetadata_cases. change (files w0) with (files w).
    by destruct Hfail as [[-> ->]|(source & -> & ->)]. }
  split; [done|]. split; [exact (build_unfold _ _ _ Hload)|]. split.
  { exact (tokensFile_text Metadata.empty). }
  intros tokens mixins maps Hd Ht Hm Hp Ft Fm Fp.
  assert (main w = (inr tt, written Metadata.empty tokens mixins maps w')) as E.
  { apply main_returns. rewrite (build_unfold _ _ _ Hload).
    exact (writeFiles_ok _ _ _ _ w' Hd Ht Hm Hp Ft Fm Fp). }
  split; [done|]. apply calls_of_intro. rewrite E.
  unfold written, emitted, store, record, w', w0. cbn.
  by rewrite <- !(assoc_L (++)).
Qed.


(** C9.  When the formatter throws, the run stops there: the error reaches
    the handler of [main], which prints it; nothing is formatted or written
    after the call that threw, nothing is tried again, and the files written
    before it stay as written.  The three cases are the three texts, in the
    order tokens, mixins, theme maps. *)
Theorem format_failure_aborts (w w' : world) (metadata : Metadata.t) (e : error) :
  loadMetadata (record (reporter_info "Building scss files for themes...") w)
    = (inr metadata, w') →
  SCSS_DIR ∉ denied w →
  let w0 := record (fs_ensureDir SCSS_DIR) w' in
  (prettier_format (tokensFile metadata) = inl e →
   main w = (inr tt, record (console_error e)
                       (record (prettier_call (tokensFile metadata)) w0))
   ∧ files (main w).2 = files w)
  ∧ (∀ tokens,
       TOKENS_ENTRYPOINT ∉ denied w →
       prettier_format (tokensFile metadata) = inr tokens →
       prettier_format mixinsFile = inl e →
       main w = (inr tt, record (console_error e)
                           (record (prettier_call mixinsFile)
                              (emitted TOKENS_ENTRYPOINT (tokensFile metadata) tokens w0)))
       ∧ files (main w).2 = <[TOKENS_ENTRYPOINT := tokens]> (files w))
  ∧ (∀ tokens mixins,
       TOKENS_ENTRYPOINT ∉ denied w →
       MIXINS_ENTRYPOINT ∉ denied w →
       prettier_format (tokensFile metadata) = inr tokens →
       prettier_format mixinsFile = inr mixins →
       prettier_format themeMapsFile = inl e →
       main w = (inr tt, record (console_error e)
                           (record (prettier_call themeMapsFile)
                              (emitted MIXINS_ENTRYPOINT mixinsFile mixins
                                 (emitted TOKENS_ENTRYPOINT (tokensFile metadata) tokens w0))))
       ∧ files (main w).2 =
           <[MIXINS_ENTRYPOINT := mixins]> (<[TOKENS_ENTRYPOINT := tokens]> (files w))).
Proof.
  intros Hload Hd w0.
  destruct (loadMetadata_total (record (reporter_info "Building scss files for themes...") w))
    as (metadata' & w'' & Hload' & Hfiles & Hdenied).
  rewrite Hload in Hload'. injection Hload' as <- <-.
  change (files (record _ w)) with (files w) in Hfiles.
  change (denied (record _ w)) with (denied w) in Hdenied.
  assert (∀ r, writeFiles metadata w' = (inl e, r) →
               main w = (inr tt, record (console_error e) r)) as Hmain.
  { intros r Hr. apply main_catches. by rewrite (build_unfold _ _ _ Hload). }
  assert (∀ {A} (k : M A), (ensureDir SCSS_DIR;; k)%js w' = k w0) as Hdir.
  { intros A k. unfold bind, ensureDir. rewrite Hdenied.
    by destruct (decide (SCSS_DIR ∈ denied w)). }
  split; [|split].
  - intros Ft.
    assert (main w = (inr tt, record (console_error e)
                                (record (prettier_call (tokensFile metadata)) w0))) as E.
    { apply Hmain. unfold writeFiles. rewrite Hdir. by apply emit_throws. }
    split; [done|]. by rewrite E.
  - intros tokens Ht Ft Fm.
    assert (main w = (inr tt, record (console_error e)
                                (record (prettier_call mixinsFile)
                                   (emitted TOKENS_ENTRYPOINT (tokensFile metadata) tokens w0)))) as E.
    { apply Hmain. unfold writeFiles. rewrite Hdir.
      rewrite (emit_ok _ _ _ _ _ Ft) by (cbn; by rewrite Hdenied).
      by apply emit_throws. }
    split; [done|]. rewrite E. cbn. by rewrite Hfiles.
  - intros tokens mixins Ht Hm Ft Fm Fp.
    assert (main w = (inr tt, record (console_error e)
                                (record (prettier_call themeMapsFile)
                                   (emitted MIXINS_ENTRYPOINT mixinsFile mixins
                                      (emitted TOKENS_ENTRYPOINT (tokensFile metadata) tokens w0))))) as E.
    { apply Hmain. unfold writeFiles. rewrite Hdir.
      rewrite (emit_ok _ _ _ _ _ Ft) by (cbn; by rewrite Hdenied).
      rewrite (emit_ok _ _ _ _ _ Fm) by (cbn; by rewrite Hdenied).
      by apply emit_throws. }
    split; [done|]. rewrite E. cbn. by rewrite Hfiles.
Qed.

End Runs.

(** ** The properties on concrete runs *)

(** C1 on the scenario: a fresh checkout and one with leftovers of an
    earlier run hold the same metadata file, hence write the same files. *)
Lemma build_reproducible_witness :
  files Scenario.fresh !! @METADATA_FILE Scenario.scenario
  = files Scenario.stale !! @METADATA_FILE Scenario.scenario
  ∧ (∀ path content1 content2,
       fs_writeFile path content1 ∈ calls_of (@main Scenario.scenario) Scenario.fresh →
       fs_writeFile path content2 ∈ calls_of (@main Scenario.scenario) Scenario.stale →
       content1 = content2).
Proof.
  split; [reflexivity|].
  apply (@build_reproducible Scenario.scenario Scenario.fresh Scenario.stale).
  reflexivity.
Defined.

(** C2 on the scenario: the token file declares the one colour token. *)
Lemma token_declarations_witness :
  variable_declarations (@tokensFile Scenario.scenario Scenario.transformed)
  = ["$interactive-01: map-get($carbon--theme, interactive-01) !default;"].
Proof.
  apply (proj2 (proj2 (@token_declarations Scenario.scenario _))); reflexivity.
Defined.

(** C3 on the scenario: one map for [white], one for [g90], then the
    default. *)
Lemma theme_maps_witness :
  variable_declarations (@themeMapsFile Scenario.scenario)
  = ["$carbon--theme--white: ("; "$carbon--theme--g90: (";
     "$carbon--theme: $carbon--theme--white !default;"].
Proof.
  refine (proj2 (@theme_maps Scenario.scenario _ _) _).
  - apply (bool_decide_unpack _). reflexivity.
  - repeat constructor; apply (bool_decide_unpack _); reflexivity.
  - reflexivity.
Defined.

(** C4 on the scenario: the lines of the mixin after its doc comment. *)
Lemma theme_switch_mixin_witness :
  drop (length (@mixin_documentation)) (Str.lines (@themeMixin Scenario.scenario))
  = ["@mixin carbon--theme($theme: $carbon--theme) {";
     "    $interactive-01: map-get($theme, interactive-01) !global;";
     EmptyString;
     "  @content;";
     EmptyString;
     "  // Reset to default theme after apply in content";
     "  @if $theme != $carbon--theme {";
     "    @include carbon--theme;";
     "  }";
     "}"].
Proof.
  rewrite (proj2 (proj2 (@theme_switch_mixin Scenario.scenario))); reflexivity.
Defined.

(** C5 fails where the document shares a cell.  On [anchored] the array
    that both entries hold is rewritten once for each of them, and the
    second rewriting finds [focus] inside the reference that the first one
    put in.  On [listed_twice] the alias of the object is formatted once
    for each of its places: it ends as the formatted name of the formatted
    name, which is another text. *)
Lemma shared_cells_transformed_twice :
  (identifiers (Document.entries Scenario.anchored [0; 1]) = true
   ∧ ∃ d',
       @transformMetadata Scenario.scenario Scenario.anchored = inr d'
       ∧ Document.entries d' [0; 1]
         = [Metadata.Token "focus" (Some ["outline of `$`$focus``"]) None false;
            Metadata.Token "active" (Some ["outline of `$`$focus``"]) None false]
       ∧ ¬ Forall2 (@normalized_entry Scenario.scenario ["focus"; "active"])
                   (Document.entries Scenario.anchored [0; 1])
                   (Document.entries d' [0; 1]))
  ∧ (identifiers (Document.entries Scenario.listed_twice [0; 0]) = true
     ∧ ∃ d',
         @transformMetadata Scenario.scenario Scenario.listed_twice = inr d'
         ∧ map Metadata.alias (Document.entries d' [0; 0])
           = [Some (@formatTokenName Scenario.scenario
                      (@formatTokenName Scenario.scenario "brand01"));
              Some (@formatTokenName Scenario.scenario
                      (@formatTokenName Scenario.scenario "brand01"))]
         ∧ @formatTokenName Scenario.scenario
             (@formatTokenName Scenario.scenario "brand01")
           ≠ @formatTokenName Scenario.scenario "brand01"
         ∧ ¬ Forall2 (@normalized_entry Scenario.scenario ["ui01"; "ui01"])
                     (Document.entries Scenario.listed_twice [0; 0])
                     (Document.entries d' [0; 0])).
Proof.
  split.
  - split; [reflexivity|]. eexists. split; [reflexivity|]. split; [reflexivity|].
    intros [(_ & _ & _ & Hrole) _]%Forall2_cons.
    destruct Hrole as (role' & [= <-] & [Htext _]%Forall2_cons).
    apply RegexFacts.rewritten_replace in Htext.
    + vm_compute in Htext. discriminate Htext.
    + repeat constructor; discriminate.
  - split; [reflexivity|]. eexists. split; [reflexivity|]. split; [reflexivity|].
    split; [vm_compute; discriminate|].
    intros [(_ & _ & Halias & _) _]%Forall2_cons.
    vm_compute in Halias. discriminate Halias.
Qed.

(** C5 as amended, on the scenario. *)
Lemma transformMetadata_normalizes_witness :
  ∃ d',
    @transformMetadata Scenario.scenario (Document.plain Scenario.metadata) = inr d'
    ∧ Forall2 (@normalized_entry Scenario.scenario ["interactive01"])
        [Metadata.Token "interactive01" (Some ["supports interactive01 state"])
                        None false]
        (Document.entries d' [0]).
Proof.
  destruct (@transformMetadata_normalizes Scenario.scenario
              (Document.plain Scenario.metadata) [0])
    as (d' & Hresult & _ & _ & Hnormalized & _).
  - reflexivity.
  - reflexivity.
  - apply (bool_decide_unpack _). reflexivity.
  - apply (bool_decide_unpack _). reflexivity.
  - exists d'. split; [exact Hresult|exact Hnormalized].
Defined.

(** C6 fails on [focus]: the first application gives [`$focus`], in which
    the second finds [focus] again. *)
Lemma second_pass_rewrites_again :
  @transformMetadata_twice Scenario.scenario (Document.plain Scenario.focus)
  ≠ @transformMetadata Scenario.scenario (Document.plain Scenario.focus).
Proof. vm_compute. discriminate. Qed.

(** C6 as amended, on the scenario: [interactive01] does not occur in
    [interactive-01], so the second application changes nothing. *)
Lemma second_pass_noop_witness :
  @transformMetadata_twice Scenario.scenario (Document.plain Scenario.metadata)
  = @transformMetadata Scenario.scenario (Document.plain Scenario.metadata).
Proof.
  destruct (@second_pass_noop_iff Scenario.scenario
              (Document.plain Scenario.metadata) [0])
    as (d' & Hfirst & _ & Hiff).
  - reflexivity.
  - reflexivity.
  - apply Hiff.
    + apply (bool_decide_unpack _). reflexivity.
    + vm_compute in Hfirst. injection Hfirst as <-. reflexivity.
Defined.

(** The condition of C6 on the places of the sequence is needed for its
    "only if": with a formatter that swaps [a] and [b], each application
    formats the alias of an object listed twice two times, which gives it
    back, yet the alias is no fixed point of the formatter. *)
Lemma listed_twice_second_pass :
  @transformMetadata_twice Scenario.swapping Scenario.swapped
  = @transformMetadata Scenario.swapping Scenario.swapped
  ∧ ∃ d',
      @transformMetadata Scenario.swapping Scenario.swapped = inr d'
      ∧ @settled Scenario.swapping (Document.entries d' [0; 0]) = false.
Proof. split; [reflexivity|]. eexists. split; reflexivity. Qed.

(** C7 fails on [brand01]: it is no colour token of this run, yet with its
    entry the role text of [ui01] is rewritten and the token file differs. *)
Lemma absent_entry_changes_token_file :
  ¬ In (Metadata.name Scenario.brand01) (@tokenColors Scenario.ui)
  ∧ ∃ d1 d2,
      @transformMetadata Scenario.ui
        (Document.plain (Metadata.Make (Some [Scenario.ui01; Scenario.brand01])))
      = inr d1
      ∧ @transformMetadata Scenario.ui
          (Document.plain (Metadata.Make (Some [Scenario.ui01]))) = inr d2
      ∧ @tokensFile Scenario.ui (Document.read d1)
        ≠ @tokensFile Scenario.ui (Document.read d2).
Proof.
  split.
  - intros [E|[]]. discriminate E.
  - eexists _, _. split; [reflexivity|]. split; [reflexivity|].
    vm_compute. discriminate.
Qed.

(** C7 as amended, on the metadata of the counterexample and on the
    scenario: after the transformation [ui01] does not find the entry of
    [brand01]; and an entry for [field01], which no role text mentions,
    changes none of the three texts. *)
Lemma absent_entry_inert_witness :
  (∃ d1,
     @transformMetadata Scenario.ui
       (Document.plain (Metadata.Make (Some [Scenario.ui01; Scenario.brand01])))
     = inr d1
     ∧ ∀ found,
         tokenData (Document.read d1) "ui01" = Some found →
         Metadata.name found ≠ "brand01")
  ∧ ∃ d1 d2,
      @transformMetadata Scenario.scenario
        (Document.Make (Some [0; 1])
           [Document.Object "interactive01" (Some 0) None false;
            Document.Object "field01" (Some 1) None true]
           [["supports interactive01 state"]; ["Input field of interactive01"]])
      = inr d1
      ∧ @transformMetadata Scenario.scenario
          (Document.Make (Some [0])
             [Document.Object "interactive01" (Some 0) None false;
              Document.Object "field01" (Some 1) None true]
             [["supports interactive01 state"]; ["Input field of interactive01"]])
        = inr d2
      ∧ ∀ path, @source_of Scenario.scenario (Document.read d1) path
                = @source_of Scenario.scenario (Document.read d2) path.
Proof.
  split.
  - eexists. split; [reflexivity|].
    destruct (@absent_entry_inert Scenario.ui "brand01") as [Hunread _].
    + intros [E|[]]. discriminate E.
    + destruct (Hunread
                  [Metadata.Token "ui01" (Some ["Pairs with `$brand-01`"]) None false]
                  []
                  (Metadata.Token "brand01" (Some ["Primary brand colour"]) None false)
                  eq_refl) as [Hfound _].
      apply (Hfound "ui01"). left. reflexivity.
  - destruct (@absent_entry_inert Scenario.scenario "field01") as [_ Hinert].
    + intros [E|[]]. discriminate E.
    + destruct (Hinert
                  (Document.Make (Some [0; 1])
                     [Document.Object "interactive01" (Some 0) None false;
                      Document.Object "field01" (Some 1) None true]
                     [["supports interactive01 state"];
                      ["Input field of interactive01"]])
                  [0] [] 1 (Document.Object "field01" (Some 1) None true))
        as (d1 & d2 & E1 & E2 & _ & Hsame).
      * reflexivity.
      * reflexivity.
      * reflexivity.
      * reflexivity.
      * apply (bool_decide_unpack _). reflexivity.
      * apply (bool_decide_unpack _). reflexivity.
      * reflexivity.
      * exists d1, d2. split; [exact E1|]. split; [exact E2|exact Hsame].
Defined.

(** C8 on the scenario without its metadata file, and with a metadata file
    that does not parse: the error printed is the one of the failure. *)
Lemma metadata_failure_degrades_witness :
  @loadMetadata Scenario.scenario
    (record (reporter_info "Building scss files for themes...") Scenario.bare)
  = (inr Metadata.empty,
     record (console_error (ENOENT "/packages/themes/metadata.yml"))
       (record (reporter_info "Building scss files for themes...") Scenario.bare))
  ∧ @loadMetadata Scenario.unparsable
      (record (reporter_info "Building scss files for themes...") Scenario.fresh)
    = (inr Metadata.empty,
       record (console_error (YAMLException "bad indentation"))
         (record (reporter_info "Building scss files for themes...") Scenario.fresh)).
Proof.
  split.
  - apply (@metadata_failure_degrades Scenario.scenario Scenario.bare
             (ENOENT "/packages/themes/metadata.yml")).
    left. split; reflexivity.
  - apply (@metadata_failure_degrades Scenario.unparsable Scenario.fresh
             (YAMLException "bad indentation")).
    right. exists "tokens: [...]". split; reflexivity.
Defined.

(** C9 on the scenario with a formatter that gives up on the mixin: the
    token file is written, the other two are not. *)
Lemma format_failure_aborts_witness :
  ∃ tokens,
    files (@main Scenario.failing Scenario.fresh).2
    = <[ "/packages/themes/scss/_tokens.scss" := tokens ]> (files Scenario.fresh).
Proof.
  destruct (@format_failure_aborts Scenario.failing Scenario.fresh
              (record (reporter_info "Building scss files for themes...")
                      Scenario.fresh)
              Scenario.transformed (FormatError "mixin"))
    as (_ & Hmixin & _).
  - reflexivity.
  - apply (bool_decide_unpack _). reflexivity.
  - eexists. refine (proj2 (Hmixin _ _ _ _)).
    + apply (bool_decide_unpack _). reflexivity.
    + reflexivity.
    + reflexivity.
Defined.


(** * Further properties of the script *)

(** ** What a run leaves on disk *)

Section Disk.

Context `{Env}.

Local Open Scope js_scope.

Lemma ensure_ok {A} (k : M A) (w : world) :
  SCSS_DIR ∉ denied w →
  (ensureDir SCSS_DIR;; k) w = k (record (fs_ensureDir SCSS_DIR) w).
Proof. intros Hd. unfold bind, ensureDir. by destruct (decide (SCSS_DIR ∈ denied w)). Qed.

Lemma ensure_denied {A} (k : M A) (w : world) :
  SCSS_DIR ∈ denied w →
  (ensureDir SCSS_DIR;; k) w = (inl (EACCES SCSS_DIR), w).
Proof. intros Hd. unfold bind, ensureDir. by destruct (decide (SCSS_DIR ∈ denied w)). Qed.

Lemma metadata_file_distinct :
  METADATA_FILE ≠ TOKENS_ENTRYPOINT ∧
  METADATA_FILE ≠ MIXINS_ENTRYPOINT ∧
  METADATA_FILE ≠ MAPS_ENTRYPOINT.
Proof.
  unfold METADATA_FILE, TOKENS_ENTRYPOINT, MIXINS_ENTRYPOINT, MAPS_ENTRYPOINT, SCSS_DIR.
  repeat split; intros E; rewrite StrFacts.app_assoc in E;
    apply (inj (String.app package_dir)) in E; discriminate E.
Qed.

Local Ltac shape_leaf writes :=
  eexists _, writes, _; split;
  [ intros path ???;
    by rewrite ?lookup_union, ?lookup_singleton_ne, ?lookup_empty by done
  | intros [fv dv tv] Hv; cbn in Hv; subst dv; unfold writeFiles;
    first [ rewrite ensure_denied by done
          | rewrite ensure_ok by done ];
    repeat match goal with
           | F : prettier_format ?source = inr ?formatted |- _ =>
               rewrite (emit_ok _ source formatted _ _ F) by done
           end;
    try match goal with
        | F : prettier_format ?source = inl ?e |- _ =>
            rewrite (emit_throws _ source e _ _ F)
        end;
    try match goal with
        | F : prettier_format ?source = inr ?formatted |- _ =>
            rewrite (emit_denied _ source formatted _ _ F) by done
        end;
    unfold log, emitted, store, record; cbn;
    rewrite ?insert_union_singleton_l, ?(assoc_L (∪)), ?(left_id_L ∅ (∪));
    rewrite <- ?(assoc_L (++)); reflexivity ].

(** [writeFiles] is one update of the world, fixed by the metadata and by
    what the file system refuses: the same result, the same files written
    over whatever was there, the same calls. *)
Lemma writeFiles_shape (metadata : Metadata.t) (w : world) :
  ∃ (result : error + unit) (writes : gmap string string) (calls : list call),
    (∀ path, path ≠ TOKENS_ENTRYPOINT → path ≠ MIXINS_ENTRYPOINT →
             path ≠ MAPS_ENTRYPOINT → writes !! path = None) ∧
    ∀ v, denied v = denied w →
      writeFiles metadata v
      = (result, World (writes ∪ files v) (denied v) (trace v ++ calls)).
Proof.
  destruct (decide (SCSS_DIR ∈ denied w)) as [Hd|Hd].
  { exists (inl (EACCES SCSS_DIR)), ∅, []. split; [done|].
    intros [fv dv tv] Hv. cbn in Hv. subst dv. unfold writeFiles.
    rewrite ensure_denied by done. cbn.
    by rewrite (left_id_L ∅ (∪)), app_nil_r. }
  destruct (prettier_format (tokensFile metadata)) as [e|tokens] eqn:Ft.
  { shape_leaf (∅ : gmap string string). }
  destruct (decide (TOKENS_ENTRYPOINT ∈ denied w)) as [Ht|Ht].
  { shape_leaf (∅ : gmap string string). }
  destruct (prettier_format mixinsFile) as [e|mixins] eqn:Fm.
  { shape_leaf ({[TOKENS_ENTRYPOINT := tokens]} : gmap string string). }
  destruct (decide (MIXINS_ENTRYPOINT ∈ denied w)) as [Hm|Hm].
  { shape_leaf ({[TOKENS_ENTRYPOINT := tokens]} : gmap string string). }
  destruct (prettier_format themeMapsFile) as [e|maps] eqn:Fp.
  { shape_leaf ({[MIXINS_ENTRYPOINT := mixins]} ∪ {[TOKENS_ENTRYPOINT := tokens]}
                : gmap string string). }
  destruct (decide (MAPS_ENTRYPOINT ∈ denied w)) as [Hp|Hp].
  { shape_leaf ({[MIXINS_ENTRYPOINT := mixins]} ∪ {[TOKENS_ENTRYPOINT := tokens]}
                : gmap string string). }
  shape_leaf ({[MAPS_ENTRYPOINT := maps]} ∪ {[MIXINS_ENTRYPOINT := mixins]}
              ∪ {[TOKENS_ENTRYPOINT := tokens]} : gmap string string).
Qed.

Lemma loadMetadata_world (w w' : world) (metadata : Metadata.t) :
  loadMetadata w = (inr metadata, w') →
  w' = w ∨ ∃ e, w' = record (console_error e) w.
Proof.
  rewrite loadMetadata_cases. intros E.
  destruct (files w !! METADATA_FILE) as [source|]; [|injection E; eauto].
  destruct (yaml_safeLoad source) as [e|document]; [injection E; eauto|].
  destruct (transformMetadata document); injection E; eauto.
Qed.

(** The metadata block is an update of the trace fixed by the content of
    the metadata file. *)
Lemma loadMetadata_shape (w : world) :
  ∃ (metadata : Metadata.t) (calls : list call),
    ∀ v, files v !! METADATA_FILE = files w !! METADATA_FILE →
      loadMetadata v
      = (inr metadata, World (files v) (denied v) (trace v ++ calls)).
Proof.
  destruct (files w !! METADATA_FILE) as [source|] eqn:Hf.
  2: { exists Metadata.empty, [console_error (ENOENT METADATA_FILE)].
       intros [fv dv tv] Hv. by rewrite loadMetadata_cases, Hv. }
  destruct (yaml_safeLoad source) as [e|document] eqn:Hy.
  { exists Metadata.empty, [console_error e].
    intros [fv dv tv] Hv. by rewrite loadMetadata_cases, Hv, Hy. }
  destruct (transformMetadata document) as [e|metadata] eqn:Ht.
  { exists Metadata.empty, [console_error e].
    intros [fv dv tv] Hv. by rewrite loadMetadata_cases, Hv, Hy, Ht. }
  exists (Document.read metadata), []. intros [fv dv tv] Hv.
  by rewrite loadMetadata_cases, Hv, Hy, Ht, app_nil_r.
Qed.

(** The whole run is one update, fixed by the metadata file and by what
    the file system refuses, and it never throws. *)
Lemma main_shape (w : world) :
  ∃ (writes : gmap string string) (calls : list call),
    (∀ path, path ≠ TOKENS_ENTRYPOINT → path ≠ MIXINS_ENTRYPOINT →
             path ≠ MAPS_ENTRYPOINT → writes !! path = None) ∧
    ∀ v, denied v = denied w →
         files v !! METADATA_FILE = files w !! METADATA_FILE →
      main v = (inr tt, World (writes ∪ files v) (denied v) (trace v ++ calls)).
Proof.
  destruct (loadMetadata_shape w) as (metadata & calls1 & Hload).
  destruct (writeFiles_shape metadata w) as (result & writes & calls2 & Hframe & Hwrite).
  exists writes.
  exists ([reporter_info "Building scss files for themes..."] ++ calls1 ++ calls2
          ++ match result with inl e => [console_error e] | inr _ => [] end).
  split; [done|]. intros [fv dv tv] Hd Hm. cbn in Hd, Hm. subst dv.
  unfold main, try_catch.
  rewrite (build_unfold _ _ _ (Hload (record (reporter_info "Building scss files for themes...")
                                        (World fv (denied w) tv)) Hm)).
  rewrite Hwrite by done. cbn.
  destruct result as [e|[]]; unfold log, record; cbn;
    by rewrite <- ?(assoc_L (++)), ?app_nil_r.
Qed.

(** X1.  [main] never throws, and it touches nothing but the three files it
    generates: what the file system refuses stays as it was, the metadata
    file is read and never written, and every other path holds what it held
    before the run. *)
Theorem main_touches_only_artifacts (w : world) :
  (main w).1 = inr tt
  ∧ denied (main w).2 = denied w
  ∧ files (main w).2 !! METADATA_FILE = files w !! METADATA_FILE
  ∧ ∀ path,
      path ≠ TOKENS_ENTRYPOINT → path ≠ MIXINS_ENTRYPOINT →
      path ≠ MAPS_ENTRYPOINT →
      files (main w).2 !! path = files w !! path.
Proof.
  destruct (main_shape w) as (writes & calls & Hframe & Hmain).
  rewrite (Hmain w) by done. cbn.
  assert (∀ path, path ≠ TOKENS_ENTRYPOINT → path ≠ MIXINS_ENTRYPOINT →
                  path ≠ MAPS_ENTRYPOINT →
                  (writes ∪ files w) !! path = files w !! path) as Hkeep.
  { intros path ???. rewrite lookup_union_r; [done|]. by apply Hframe. }
  repeat split; [|done].
  destruct metadata_file_distinct as (? & ? & ?). by apply Hkeep.
Qed.

(** X2.  Running the script again changes nothing: the second run reads
    the same metadata file, makes the same calls, and leaves the file system
    as the first run left it, whether the first run succeeded or stopped on
    an error. *)
Theorem rerun_changes_nothing (w : world) :
  files (main (main w).2).2 = files (main w).2
  ∧ calls_of main (main w).2 = calls_of main w.
Proof.
  destruct (main_shape w) as (writes & calls & Hframe & Hmain).
  pose proof (Hmain w eq_refl eq_refl) as E1. rewrite E1. cbn [snd].
  assert (main (World (writes ∪ files w) (denied w) (trace w ++ calls))
          = (inr tt, World (writes ∪ (writes ∪ files w)) (denied w)
                           ((trace w ++ calls) ++ calls))) as E2.
  { pose proof (Hmain (World (writes ∪ files w) (denied w) (trace w ++ calls))
                       eq_refl) as E.
    cbn in E. apply E.
    destruct metadata_file_distinct as (? & ? & ?).
    rewrite lookup_union_r; [done|]. by apply Hframe. }
  split.
  - rewrite E2. cbn. by rewrite (assoc_L (∪)), (idemp_L (∪)).
  - rewrite (calls_of_intro main (World (writes ∪ files w) (denied w) (trace w ++ calls)) calls)
      by by rewrite E2.
    symmetry. apply calls_of_intro. by rewrite E1.
Qed.

(** X3.  The clean run.  When the metadata file is read and parsed and
    [transformMetadata] returns (as it does for a token sequence named by
    identifiers), the file system refuses nothing and the formatter accepts
    the three texts, the script makes exactly these calls in this order:
    the start message, [ensureDir], and for tokens, mixin and theme maps in
    turn the formatter then the write of its result, then the success
    message.  No error is printed and the three files hold the formatted
    texts built from the transformed metadata. *)
Theorem clean_run (w : world) (source : string) (document transformed : Document.t)
    (ftokens fmixins fmaps : string) :
  files w !! METADATA_FILE = Some source →
  yaml_safeLoad source = inr document →
  transformMetadata document = inr transformed →
  let metadata := Document.read transformed in
  SCSS_DIR ∉ denied w →
  TOKENS_ENTRYPOINT ∉ denied w →
  MIXINS_ENTRYPOINT ∉ denied w →
  MAPS_ENTRYPOINT ∉ denied w →
  prettier_format (tokensFile metadata) = inr ftokens →
  prettier_format mixinsFile = inr fmixins →
  prettier_format themeMapsFile = inr fmaps →
  calls_of main w =
    [reporter_info "Building scss files for themes...";
     fs_ensureDir SCSS_DIR;
     prettier_call (tokensFile metadata);
     fs_writeFile TOKENS_ENTRYPOINT ftokens;
     prettier_call mixinsFile;
     fs_writeFile MIXINS_ENTRYPOINT fmixins;
     prettier_call themeMapsFile;
     fs_writeFile MAPS_ENTRYPOINT fmaps;
     reporter_success "Done! 🎉"]
  ∧ files (main w).2 !! TOKENS_ENTRYPOINT = Some ftokens
  ∧ files (main w).2 !! MIXINS_ENTRYPOINT = Some fmixins
  ∧ files (main w).2 !! MAPS_ENTRYPOINT = Some fmaps.
Proof.
  intros Hfile Hparse Htransform metadata Hd Ht Hm Hp Ft Fm Fp.
  set (w0 := record (reporter_info "Building scss files for themes...") w).
  assert (loadMetadata w0 = (inr metadata, w0)) as Hload.
  { rewrite loadMetadata_cases. change (files w0) with (files w).
    by rewrite Hfile, Hparse, Htransform. }
  assert (main w = (inr tt, written metadata ftokens fmixins fmaps w0)) as E.
  { apply main_returns. rewrite (build_unfold _ _ _ Hload).
    exact (writeFiles_ok _ _ _ _ w0 Hd Ht Hm Hp Ft Fm Fp). }
  rewrite E. split; [|apply written_files].
  apply calls_of_intro. rewrite E.
  unfold written, emitted, store, record, w0. cbn.
  by rewrite <- !(assoc_L (++)).
Qed.

(** X4.  When the file system refuses a write, the run stops there: the
    error reaches the handler of [main], which prints it; the text was
    formatted but its file is not written, no later text is formatted or
    written, and the files written before stay.  When it refuses the
    directory, nothing is formatted at all. *)
Theorem write_failure_aborts (w w' : world) (metadata : Metadata.t) :
  loadMetadata (record (reporter_info "Building scss files for themes...") w)
    = (inr metadata, w') →
  let w0 := record (fs_ensureDir SCSS_DIR) w' in
  (SCSS_DIR ∈ denied w →
   main w = (inr tt, record (console_error (EACCES SCSS_DIR)) w'))
  ∧ (∀ tokens,
       SCSS_DIR ∉ denied w →
       prettier_format (tokensFile metadata) = inr tokens →
       TOKENS_ENTRYPOINT ∈ denied w →
       main w = (inr tt, record (console_error (EACCES TOKENS_ENTRYPOINT))
                           (record (prettier_call (tokensFile metadata)) w0)))
  ∧ (∀ tokens mixins,
       SCSS_DIR ∉ denied w →
       prettier_format (tokensFile metadata) = inr tokens →
       TOKENS_ENTRYPOINT ∉ denied w →
       prettier_format mixinsFile = inr mixins →
       MIXINS_ENTRYPOINT ∈ denied w →
       main w = (inr tt, record (console_error (EACCES MIXINS_ENTRYPOINT))
                           (record (prettier_call mixinsFile)
                              (emitted TOKENS_ENTRYPOINT (tokensFile metadata) tokens w0))))
  ∧ (∀ tokens mixins maps,
       SCSS_DIR ∉ denied w →
       prettier_format (tokensFile metadata) = inr tokens →
       TOKENS_ENTRYPOINT ∉ denied w →
       prettier_format mixinsFile = inr mixins →
       MIXINS_ENTRYPOINT ∉ denied w →
       prettier_format themeMapsFile = inr maps →
       MAPS_ENTRYPOINT ∈ denied w →
       main w = (inr tt, record (console_error (EACCES MAPS_ENTRYPOINT))
                           (record (prettier_call themeMapsFile)
                              (emitted MIXINS_ENTRYPOINT mixinsFile mixins
                                 (emitted TOKENS_ENTRYPOINT (tokensFile metadata) tokens w0))))).
Proof.
  intros Hload w0.
  destruct (loadMetadata_total (record (reporter_info "Building scss files for themes...") w))
    as (metadata' & w'' & Hload' & _ & Hdenied).
  rewrite Hload in Hload'. injection Hload' as <- <-.
  change (denied (record _ w)) with (denied w) in Hdenied.
  assert (∀ e r, writeFiles metadata w' = (inl e, r) →
                 main w = (inr tt, record (console_error e) r)) as Hmain.
  { intros e r Hr. apply main_catches. by rewrite (build_unfold _ _ _ Hload). }
  repeat split.
  - intros Hd. apply Hmain. unfold writeFiles.
    rewrite ensure_denied by by rewrite Hdenied. done.
  - intros tokens Hd Ft Ht. apply Hmain. unfold writeFiles.
    rewrite ensure_ok by by rewrite Hdenied.
    by rewrite (emit_denied _ _ _ _ _ Ft) by (cbn; by rewrite Hdenied).
  - intros tokens mixins Hd Ft Ht Fm Hm. apply Hmain. unfold writeFiles.
    rewrite ensure_ok by by rewrite Hdenied.
    rewrite (emit_ok _ _ _ _ _ Ft) by (cbn; by rewrite Hdenied).
    by rewrite (emit_denied _ _ _ _ _ Fm) by (cbn; by rewrite Hdenied).
  - intros tokens mixins maps Hd Ft Ht Fm Hm Fp Hp. apply Hmain. unfold writeFiles.
    rewrite ensure_ok by by rewrite Hdenied.
    rewrite (emit_ok _ _ _ _ _ Ft) by (cbn; by rewrite Hdenied).
    rewrite (emit_ok _ _ _ _ _ Fm) by (cbn; by rewrite Hdenied).
    by rewrite (emit_denied _ _ _ _ _ Fp) by (cbn; by rewrite Hdenied).
Qed.

Local Ltac no_success_leaf :=
  eexists; split;
  [ unfold emitted, store, record; cbn; rewrite <- ?(assoc_L (++)); cbn;
    reflexivity
  | intros message Hin; set_unfold in Hin;
    repeat (destruct Hin as [Hin|Hin]; try discriminate Hin); done ].

(** The success message is the last thing [writeFiles] does. *)
Lemma writeFiles_success (metadata : Metadata.t) (w : world) :
  ∃ calls,
    trace (writeFiles metadata w).2 = trace w ++ calls ∧
    ∀ message, reporter_success message ∈ calls →
      ∃ tokens mixins maps,
        prettier_format (tokensFile metadata) = inr tokens ∧
        prettier_format mixinsFile = inr mixins ∧
        prettier_format themeMapsFile = inr maps ∧
        writeFiles metadata w = (inr tt, written metadata tokens mixins maps w).
Proof.
  unfold writeFiles at 1.
  destruct (decide (SCSS_DIR ∈ denied w)).
  { rewrite ensure_denied by done. exists []. split; [by rewrite app_nil_r|].
    intros ? Hin. by set_unfold in Hin. }
  rewrite ensure_ok by done.
  destruct (prettier_format (tokensFile metadata)) as [e|tokens] eqn:Ft.
  { rewrite (emit_throws _ _ _ _ _ Ft). no_success_leaf. }
  destruct (decide (TOKENS_ENTRYPOINT ∈ denied w)).
  { rewrite (emit_denied _ _ _ _ _ Ft) by done. no_success_leaf. }
  rewrite (emit_ok _ _ _ _ _ Ft) by done.
  destruct (prettier_format mixinsFile) as [e|mixins] eqn:Fm.
  { rewrite (emit_throws _ _ _ _ _ Fm). no_success_leaf. }
  destruct (decide (MIXINS_ENTRYPOINT ∈ denied w)).
  { rewrite (emit_denied _ _ _ _ _ Fm) by done. no_success_leaf. }
  rewrite (emit_ok _ _ _ _ _ Fm) by done.
  destruct (prettier_format themeMapsFile) as [e|maps] eqn:Fp.
  { rewrite (emit_throws _ _ _ _ _ Fp). no_success_leaf. }
  destruct (decide (MAPS_ENTRYPOINT ∈ denied w)).
  { rewrite (emit_denied _ _ _ _ _ Fp) by done. no_success_leaf. }
  rewrite (emit_ok _ _ _ _ _ Fp) by done.
  eexists. split.
  - unfold log, emitted, store, record. cbn. rewrite <- ?(assoc_L (++)). cbn.
    reflexivity.
  - intros message _. exists tokens, mixins, maps. repeat split; try done.
    by apply writeFiles_ok.
Qed.

(** X5.  The success message means the work is done: whenever a run
    reports success, the three texts were formatted and written, the files
    hold them, and no error was printed after the metadata block. *)
Theorem success_means_complete (w : world) (message : string) :
  reporter_success message ∈ calls_of main w →
  ∃ metadata w' tokens mixins maps,
    loadMetadata (record (reporter_info "Building scss files for themes...") w)
      = (inr metadata, w')
    ∧ prettier_format (tokensFile metadata) = inr tokens
    ∧ prettier_format mixinsFile = inr mixins
    ∧ prettier_format themeMapsFile = inr maps
    ∧ main w = (inr tt, written metadata tokens mixins maps w')
    ∧ files (main w).2 !! TOKENS_ENTRYPOINT = Some tokens
    ∧ files (main w).2 !! MIXINS_ENTRYPOINT = Some mixins
    ∧ files (main w).2 !! MAPS_ENTRYPOINT = Some maps.
Proof.
  set (w0 := record (reporter_info "Building scss files for themes...") w).
  destruct (loadMetadata_total w0) as (metadata & w' & Hload & _).
  destruct (writeFiles_success metadata w') as (calls & Htrace & Hsuccess).
  assert (∃ before after,
            trace (main w).2 = trace w ++ before ++ calls ++ after
            ∧ (∀ m, reporter_success m ∉ before)
            ∧ (∀ m, reporter_success m ∉ after)) as (before & after & Hmain & Hb & Ha).
  { assert (∃ before, trace w' = trace w ++ before ∧ ∀ m, reporter_success m ∉ before)
      as (before & Hw' & Hb).
    { destruct (loadMetadata_world _ _ _ Hload) as [->|[e ->]].
      - eexists. split; [reflexivity|]. intros m Hin. set_unfold in Hin.
        by destruct Hin.
      - eexists. split; [unfold w0, record; cbn; by rewrite <- (assoc_L (++))|].
        intros m Hin. set_unfold in Hin. by destruct Hin as [|[|]]. }
    exists before. unfold main, try_catch. rewrite (build_unfold _ _ _ Hload).
    destruct (writeFiles metadata w') as [[e|[]] w''] eqn:R; cbn in Htrace |- *.
    - exists [console_error e]. split; [|split; [done|]].
      + by rewrite Htrace, Hw', <- !(assoc_L (++)).
      + intros m Hin. set_unfold in Hin. by destruct Hin.
    - exists []. split; [|split; [done|]].
      + by rewrite Htrace, Hw', <- !(assoc_L (++)), app_nil_r.
      + intros m Hin. by set_unfold in Hin. }
  rewrite (calls_of_intro _ _ _ Hmain). intros Hin.
  rewrite !elem_of_app in Hin. destruct Hin as [Hin|[Hin|Hin]];
    [by apply Hb in Hin| |by apply Ha in Hin].
  destruct (Hsuccess _ Hin) as (tokens & mixins & maps & Ft & Fm & Fp & Hw).
  assert (main w = (inr tt, written metadata tokens mixins maps w')) as E.
  { apply main_returns. by rewrite (build_unfold _ _ _ Hload). }
  exists metadata, w', tokens, mixins, maps. rewrite E.
  repeat split; try done; apply written_files.
Qed.

End Disk.

(** ** Which names the transformation references *)

Section References.

Context `{Env}.




(** A second copy of an alternative is never reached. *)
Lemma exec_duplicate (before after : list string) (name s : string) :
  In name before →
  Regex.exec (before ++ name :: after) s = Regex.exec (before ++ after) s.
Proof.
  induction before as [|b before IH]; [done|]. intros Hin. cbn [app Regex.exec].
  destruct (String.prefix b s) eqn:Hb; [done|].
  destruct Hin as [->|Hin]; [by apply exec_irrelevant|by apply IH].
Qed.

(** Expressions that match alike replace alike. *)
Lemma replace_from_exec_ext (re1 re2 : Regex.t) (f g : string → string)
    (n : nat) (s : string) :
  (∀ t, Regex.exec re1 t = Regex.exec re2 t) →
  (∀ m, In m re2 → f m = g m) →
  Regex.replace_from re1 f n s = Regex.replace_from re2 g n s.
Proof.
  intros Hexec Hfg. revert n.
  induction s as [|c s IH]; intros [|n]; cbn [Regex.replace_from]; try done.
  - rewrite Hexec. destruct (Regex.exec re2 EmptyString) as [m|] eqn:E; [|done].
    apply RegexFacts.exec_In in E as [Hin _]. by rewrite (Hfg _ Hin).
  - rewrite Hexec.
    destruct (Regex.exec re2 (String c s)) as [m|] eqn:E; [|by rewrite IH].
    apply RegexFacts.exec_In in E as [Hin _]. rewrite (Hfg _ Hin).
    destruct (String.length m); by rewrite IH.
Qed.

Lemma find_app_found {A} (p : A → bool) (xs ys : list A) (x : A) :
  In x xs → p x = true → List.find p (xs ++ ys) = List.find p xs.
Proof.
  induction xs as [|a xs IH]; [done|]. intros Hin Hp. cbn [app List.find].
  destruct (p a) eqn:Ha; [done|].
  destruct Hin as [->|Hin]; [congruence|by apply IH].
Qed.

(** X6.  A role text is left as it is exactly when it mentions none of the
    identifiers of the metadata: the replacement of lines 63-65 never
    changes a text that holds no identifier, and always changes one that
    does. *)
Theorem role_text_kept_iff (tokens : list Metadata.token) (text : string) :
  tokens ≠ [] →
  identifiers tokens = true →
  Regex.replace (namesRegEx tokens) (replacer tokens) text = text
  ↔ ∀ name, In name (map Metadata.name tokens) → Str.occurs name text = false.
Proof.
  intros Hne Hids.
  change (Regex.replace (namesRegEx tokens) (replacer tokens) text)
    with (literal tokens text).
  rewrite role_replace by done. split.
  - intros Hkept name Hin. destruct (Str.occurs name text) eqn:Hocc; [|done].
    destruct (replace_changes _ _ _ (identifiers_names _ Hids) Hin Hocc Hkept).
  - apply replace_untouched.
Qed.


(** With a second entry of the same name, an entry is visited as without
    it. *)
Lemma visit_duplicate (before after : list Metadata.token)
    (entry earlier token : Metadata.token) :
  identifiers (before ++ entry :: after) = true →
  In earlier before →
  Metadata.name earlier = Metadata.name entry →
  visit (literal (before ++ entry :: after)) token
  = visit (literal (before ++ after)) token.
Proof.
  intros Hids Hin Hname.
  assert (identifiers (before ++ after) = true) as Hids'.
  { rewrite identifiers_app in Hids. apply andb_true_iff in Hids as [Hb Ha].
    change (identifiers (entry :: after))
      with (identifier (Metadata.name entry) && identifiers after) in Ha.
    apply andb_true_iff in Ha as [_ Ha]. by rewrite identifiers_app, Hb, Ha. }
  unfold visit. f_equal.
  destruct (Metadata.role token) as [role|]; [|done].
  cbn [fmap option_fmap option_map]. f_equal. apply map_ext. intros text.
  unfold literal, Regex.replace.
  rewrite !namesRegEx_names; [|by destruct before|done|by destruct before|done].
  apply replace_from_exec_ext.
  - intros t. rewrite map_app. cbn [map]. rewrite map_app.
    apply exec_duplicate. rewrite <- Hname. by apply in_map.
  - intros m Hm. rewrite !replacer_reference; [done|done|].
    rewrite map_app in Hm |- *. cbn [map]. apply in_app_iff.
    apply in_app_iff in Hm as [?|?]; [by left|by right; right].
Qed.

(** X8.  Of two metadata entries with the same name the first one is the
    entry of the token: where the second is an object of its own with a
    [role] array of its own (no object of the sequence is listed twice, no
    array is held by two listed objects) it is never looked up and adds
    nothing to the expression, and the three texts are the same with it as
    without it. *)
Theorem duplicate_entry_dead (d : Document.t) (before after : list nat)
    (ref earlier : nat) (object first : Document.object) :
  Document.tokens d = Some (before ++ ref :: after) →
  identifiers (Document.entries d (before ++ ref :: after)) = true →
  NoDup (before ++ ref :: after) →
  NoDup (Document.roles d (before ++ ref :: after)) →
  Document.objects d !! ref = Some object →
  earlier ∈ before →
  Document.objects d !! earlier = Some first →
  Document.name first = Document.name object →
  ∃ d1 d2,
    transformMetadata d = inr d1
    ∧ transformMetadata
        (Document.Make (Some (before ++ after)) (Document.objects d)
                       (Document.arrays d)) = inr d2
    ∧ (∀ token, tokenData (Document.read d1) token = tokenData (Document.read d2) token)
    ∧ (∀ path, source_of (Document.read d1) path = source_of (Document.read d2) path).
Proof.
  intros Htokens Hids Hrefs Hroles Hobject Hearlier Hfirst Hname.
  destruct (without_entry d before after ref object Htokens Hobject Hids Hrefs Hroles)
    as (d1 & d2 & full & less & -> & -> & Hfull & E1 & E2 & Hread1 & Hread2).
  assert (In (Document.entry d first) (Document.entries d before)) as Hin.
  { apply list_elem_of_In, entries_elem. by exists earlier, first. }
  set (Eb := Document.entries d before) in *.
  set (Ea := Document.entries d after) in *.
  set (entry := Document.entry d object) in *.
  assert (∀ token, visit (literal (Eb ++ entry :: Ea)) token
                   = visit (literal (Eb ++ Ea)) token) as Hvisit.
  { intros token. by apply (visit_duplicate _ _ _ (Document.entry d first)). }
  assert (∀ token, tokenData (Document.read d1) token = tokenData (Document.read d2) token)
    as Hdata.
  { intros token. rewrite Hread1, Hread2.
    unfold tokenData. cbn [Metadata.tokens mbind option_bind].
    rewrite (map_ext _ _ Hvisit), !map_app. cbn [map].
    destruct (String.eqb (Metadata.name entry) token) eqn:Hp.
    - rewrite !(find_app_found _ _ _ (visit (literal (Eb ++ Ea)) (Document.entry d first)));
        [done|by apply in_map|by cbn; rewrite Hname|by apply in_map
        |by cbn; rewrite Hname].
    - by apply find_irrelevant. }
  exists d1, d2. split; [done|]. split; [done|]. split; [done|].
  intros path. unfold source_of.
  by rewrite (tokensFile_ext _ _ (λ token _, Hdata token)).
Qed.

End References.

(** ** Edges of the generated texts *)

Section Edges.

Context `{Env}.

(** X9.  An entry without [role], with no alias or the empty alias, and not
    deprecated leaves no trace: a metadata set of such entries, the empty
    sequence among them, gives the token file of a run without metadata. *)
Theorem bare_entries_leave_no_trace (tokens : list Metadata.token) :
  (∀ entry, In entry tokens →
     Metadata.role entry = None
     ∧ from_option truthy false (Metadata.alias entry) = false
     ∧ Metadata.deprecated entry = false) →
  tokensFile (Metadata.Make (Some tokens)) = tokensFile Metadata.empty.
Proof.
  intros Hbare. rewrite !tokensFile_text.
  assert (flat_map (token_lines (Metadata.Make (Some tokens))) tokenColors
          = flat_map (token_lines Metadata.empty) tokenColors) as ->; [|done].
  rewrite !flat_map_concat_map. f_equal. apply map_ext. intros token.
  unfold token_lines, documentation.
  destruct (tokenData (Metadata.Make (Some tokens)) token) as [entry|] eqn:Hdata;
    [|done].
  apply tokenData_entry in Hdata as (tokens' & [= <-] & Hin & _).
  destruct (Hbare _ Hin) as (Hrole & Halias & Hdeprecated).
  cbn [mbind option_bind from_option tokenData Metadata.empty Metadata.tokens].
  rewrite Hrole, Hdeprecated.
  destruct (Metadata.alias entry) as [alias|]; [|done].
  cbn in Halias. by rewrite Halias.
Qed.

Lemma free_cons (sep c : ascii) (s : string) :
  Str.free sep (String c s) = negb (Ascii.eqb c sep) && Str.free sep s.
Proof. done. Qed.

(** A replacement puts no line feed into a text that has none, if the
    references have none. *)
Lemma single_line_replace_from (re : Regex.t) (f : string → string)
    (n : nat) (s : string) :
  (∀ m, In m re → Str.single_line (f m) = true) →
  Str.single_line s = true →
  Str.single_line (Regex.replace_from re f n s) = true.
Proof.
  unfold Str.single_line. intros Hf. revert n.
  induction s as [|c s IH]; intros [|n] Hs; cbn [Regex.replace_from]; try done.
  - destruct (Regex.exec re EmptyString) as [m|] eqn:E; [|done].
    apply RegexFacts.exec_In in E as [Hin _].
    rewrite StrFacts.free_app. by rewrite (Hf _ Hin).
  - rewrite free_cons in Hs. apply andb_true_iff in Hs as [Hc Hs].
    destruct (Regex.exec re (String c s)) as [m|] eqn:E.
    + apply RegexFacts.exec_In in E as [Hin _].
      rewrite StrFacts.free_app, (Hf _ Hin).
      destruct (String.length m); [by rewrite free_cons, Hc, IH|by apply IH].
    + by rewrite free_cons, Hc, IH.
  - rewrite free_cons in Hs. apply andb_true_iff in Hs as [_ Hs]. by apply IH.
Qed.

Lemma single_line_iter (names : list string) (k : nat) (text : string) :
  (∀ name, In name names → Str.single_line (inline_reference name) = true) →
  Str.single_line text = true →
  Str.single_line (Nat.iter k (Regex.replace names inline_reference) text) = true.
Proof.
  intros Hnames Htext. induction k as [|k IH]; [done|]. rewrite Nat.iter_succ.
  by apply single_line_replace_from.
Qed.

(** X10.  The transformation keeps one-line texts one line: if the role
    texts and aliases of the metadata have no line feed and the formatted
    names and aliases have none, the transformed role texts have none,
    however often an array is rewritten, and the transformed aliases have
    none when every place of the sequence holds an object of its own (an
    object listed twice has its alias formatted twice), so the doc comments
    of the token file stay whole. *)
Theorem transformMetadata_keeps_one_line (d : Document.t) (refs : list nat) :
  Document.tokens d = Some refs →
  identifiers (Document.entries d refs) = true →
  one_line_metadata (Document.read d) = true →
  forallb (λ token, Str.single_line (formatTokenName (Metadata.name token))
                    && from_option (λ alias, Str.single_line (formatTokenName alias))
                                   true (Metadata.alias token))
          (Document.entries d refs) = true →
  ∃ d',
    transformMetadata d = inr d'
    ∧ forallb (λ entry, from_option (forallb Str.single_line) true
                                    (Metadata.role entry))
              (Document.entries d' refs) = true
    ∧ (NoDup refs → one_line_metadata (Document.read d') = true).
Proof.
  intros Htokens Hids Hone Hfmt.
  set (tokens := Document.entries d refs) in *.
  set (d' := foldl (transformToken (literal tokens)) d refs).
  exists d'. split; [by apply transformMetadata_loop|].
  unfold one_line_metadata, Document.read in Hone. rewrite Htokens in Hone.
  cbn [Metadata.tokens fmap option_fmap option_map from_option] in Hone. fold tokens in Hone.
  rewrite forallb_forall in Hone, Hfmt.
  assert (∀ name, In name (map Metadata.name tokens) →
                  Str.single_line (inline_reference name) = true) as Hrefs.
  { intros name (named & <- & Hnamed)%in_map_iff.
    apply Hfmt, andb_true_iff in Hnamed as [Hname _].
    unfold inline_reference, Str.single_line in *.
    by rewrite !StrFacts.free_app, Hname. }
  assert (∀ entry', In entry' (Document.entries d' refs) →
            ∃ ref token,
              ref ∈ refs ∧ Document.objects d !! ref = Some token
              ∧ In (Document.entry d token) tokens
              ∧ entry' = Metadata.Token
                           (Document.name token)
                           ((λ array, map (Nat.iter (rewrites d refs array) (literal tokens))
                                          (Document.texts d array))
                              <$> Document.role token)
                           (Nat.iter (visits refs ref) (fmap formatAlias)
                                     (Document.alias token))
                           (Document.deprecated token)) as Helem.
  { intros entry' Hin'%list_elem_of_In. unfold Document.entries in Hin'.
    apply list_elem_of_omap in Hin' as (ref & Href & Hentry).
    unfold d' in Hentry. rewrite loop_entry in Hentry.
    destruct (Document.objects d !! ref) as [token|] eqn:Htoken; [|done].
    injection Hentry as <-. exists ref, token. repeat split; try done.
    apply list_elem_of_In, entries_elem. by exists ref, token. }
  assert (∀ entry', In entry' (Document.entries d' refs) →
            from_option (forallb Str.single_line) true (Metadata.role entry') = true)
    as Hroles.
  { intros entry' (ref & token & Href & Htoken & Hin & ->)%Helem.
    cbn [Metadata.role]. specialize (Hone _ Hin). unfold one_line_entry in Hone.
    apply andb_true_iff in Hone as [Hrole _]. unfold Document.entry in Hrole.
    cbn [Metadata.role] in Hrole.
    destruct (Document.role token) as [array|]; [|done].
    cbn [fmap option_fmap option_map from_option] in *.
    rewrite forallb_forall in Hrole |- *.
    intros text' (text & <- & Htext)%in_map_iff.
    assert (tokens ≠ []) as Hne by (intros E; by rewrite E in Hin).
    rewrite (iter_ext _ (Regex.replace (map Metadata.name tokens) inline_reference))
      by (intros y; by apply role_replace).
    apply single_line_iter; [done|]. by apply Hrole. }
  split; [by apply forallb_forall|]. intros Hnodup.
  unfold one_line_metadata, Document.read.
  assert (Document.tokens d' = Some refs) as ->
    by (unfold d'; by rewrite loop_tokens).
  cbn [Metadata.tokens fmap option_fmap option_map from_option].
  apply forallb_forall. intros entry' Hin'. unfold one_line_entry.
  rewrite (Hroles _ Hin'). cbn [andb].
  apply Helem in Hin' as (ref & token & Href & Htoken & Hin & ->).
  cbn [Metadata.alias]. rewrite visits_once by done.
  specialize (Hone _ Hin). unfold one_line_entry in Hone.
  apply andb_true_iff in Hone as [_ Halias].
  apply Hfmt, andb_true_iff in Hin as [_ Hfalias].
  unfold Document.entry in Halias, Hfalias. cbn [Metadata.alias] in Halias, Hfalias.
  destruct (Document.alias token) as [alias|]; [|done].
  cbn in Halias, Hfalias |- *. unfold formatAlias. by destruct (truthy alias).
Qed.

Lemma app_inv_tail (s t u : string) : s +:+ u = t +:+ u → s = t.
Proof.
  revert t. induction s as [|c s IH]; intros [|d t] E.
  - done.
  - apply (f_equal String.length) in E.
    rewrite StrFacts.app_nil_l, StrFacts.app_cons in E. cbn in E.
    rewrite StrFacts.length_app in E. lia.
  - apply (f_equal String.length) in E.
    rewrite StrFacts.app_nil_l, StrFacts.app_cons in E. cbn in E.
    rewrite StrFacts.length_app in E. lia.
  - rewrite !StrFacts.app_cons in E. injection E as -> E. f_equal. by apply IH.
Qed.

(** The declarations of the theme-maps file, for a well-formed collection
    of one-line names and values. *)
Lemma themeMapsFile_declarations :
  Obj.wf themes →
  Forall (λ entry, Obj.wf entry.2) themes →
  one_line_themes = true →
  variable_declarations themeMapsFile =
    map (λ name, "$carbon--theme--" +:+ name +:+ ": (") (Obj.keys themes)
    ++ ["$carbon--theme: $carbon--theme--white !default;"].
Proof.
  intros Hthemes Heach Hlines.
  pose proof (themeMaps_text Hthemes Heach) as Hmaps.
  set (blocks := map (λ entry, theme_map_lines entry.1 entry.2) themes) in *.
  unfold variable_declarations.
  set (header := ["// Code generated by @carbon/themes. DO NOT EDIT."; "//";
                  "// Copyright IBM Corp. 2018, 2018"; "//";
                  "// This source code is licensed under the Apache-2.0 license found in the";
                  "// LICENSE file in the root directory of this source tree.";
                  "//"; EmptyString]).
  assert (themeMapsFile
          = Str.unlines (header ++ blank_separated blocks
                         ++ [EmptyString; EmptyString] ++ default_alias_lines)) as ->.
  { unfold themeMapsFile. rewrite Hmaps, !StrFacts.unlines_app.
    unfold header, default_alias_lines. text_eq. }
  rewrite StrFacts.lines_unlines.
  - rewrite !List.filter_app.
    rewrite (filter_none _ header) by repeat constructor.
    rewrite filter_blank_separated by done.
    rewrite app_nil_l, <- !(assoc_L (++)). f_equal.
    unfold blocks, Obj.keys. rewrite flat_map_concat_map, !map_map.
    generalize themes. intros entries.
    induction entries as [|[name theme] entries IH]; [done|].
    cbn [map concat fst snd]. by rewrite theme_map_declaration, IH.
  - unfold one_line_themes in Hlines. rewrite forallb_forall in Hlines.
    apply Forall_app_2; [repeat constructor|].
    apply Forall_app_2; [|repeat constructor].
    apply blank_separated_Forall; [done|].
    apply Forall_map, Forall_forall. intros [name theme] Hin%list_elem_of_In.
    apply Hlines in Hin. cbn [fst snd] in *.
    apply andb_true_iff in Hin as [Hname Htheme].
    unfold one_line_theme in Htheme. rewrite forallb_forall in Htheme.
    unfold theme_map_lines, Str.single_line in *.
    apply Forall_app_2; [|apply Forall_app_2].
    + repeat constructor; rewrite !StrFacts.free_app, Hname; done.
    + apply Forall_map, Forall_forall. intros property Hprop%list_elem_of_In.
      apply Htheme, andb_true_iff in Hprop as [Hkey Hvalue].
      by rewrite !StrFacts.free_app, Hkey, Hvalue.
    + repeat constructor.
Qed.

(** X11.  The default theme is not checked against the collection: the
    file always binds [$carbon--theme] to [$carbon--theme--white], and it
    declares [$carbon--theme--white] exactly when the collection has a theme
    named [white]. *)
Theorem default_theme_unchecked :
  Obj.wf themes →
  Forall (λ entry, Obj.wf entry.2) themes →
  one_line_themes = true →
  In "$carbon--theme: $carbon--theme--white !default;"
     (variable_declarations themeMapsFile)
  ∧ (In "$carbon--theme--white: (" (variable_declarations themeMapsFile)
     ↔ In "white" (Obj.keys themes)).
Proof.
  intros Hthemes Heach Hlines.
  rewrite (themeMapsFile_declarations Hthemes Heach Hlines). split.
  - apply in_app_iff. right. by left.
  - rewrite in_app_iff, in_map_iff. split.
    + intros [(name & E & Hin)|[E|[]]]; [|discriminate E].
      change "$carbon--theme--white: (" with ("$carbon--theme--" +:+ "white" +:+ ": (") in E.
      apply (inj (String.app "$carbon--theme--")) in E.
      by apply app_inv_tail in E as ->.
    + intros Hin. left. by exists "white".
Qed.

End Edges.

(** ** What sharing does *)

Section Sharing.

Context `{Env}.

Lemma omap_lookup_seq {A} (l : list A) :
  omap (λ i, l !! i) (seq 0 (length l)) = l.
Proof.
  induction l as [|x l IH] using rev_ind; [done|].
  rewrite length_app, Nat.add_comm. cbn [length Nat.add].
  rewrite seq_S, omap_app. cbn.
  rewrite list_lookup_middle by done. cbn. f_equal.
  rewrite <- IH at 2. apply omap_ext_in. intros i Hi%in_seq.
  apply lookup_app_l. lia.
Qed.

(** A document without anchors reads as the metadata it was made from, and
    shares nothing. *)
Lemma read_plain (metadata : Metadata.t) :
  Document.read (Document.plain metadata) = metadata.
Proof.
  destruct metadata as [[entries|]]; [|done].
  unfold Document.read, Document.plain. cbn. f_equal. f_equal.
  transitivity (omap (λ i, entries !! i) (seq 0 (length entries)));
    [|apply omap_lookup_seq].
  unfold Document.entries. cbn. apply omap_ext_in. intros i _.
  rewrite list_lookup_imap.
  destruct (entries !! i) as [[name role alias deprecated]|] eqn:E; [|done].
  cbn. f_equal. unfold Document.entry. cbn. f_equal.
  destruct role as [role|]; [|done]. cbn. f_equal.
  unfold Document.texts. cbn. by rewrite list_lookup_fmap, E.
Qed.

Lemma plain_separate (entries : list Metadata.token) :
  NoDup (seq 0 (length entries))
  ∧ NoDup (Document.roles (Document.plain (Metadata.Make (Some entries)))
                          (seq 0 (length entries))).
Proof.
  split; [apply NoDup_seq|].
  apply (sublist_NoDup _ (seq 0 (length entries))); [apply NoDup_seq|].
  unfold Document.roles, Document.plain. cbn.
  generalize (seq 0 (length entries)). intros refs.
  induction refs as [|i refs IH]; [done|]. cbn. rewrite list_lookup_imap.
  destruct (entries !! i) as [[name [role|] alias deprecated]|]; cbn;
    by constructor.
Qed.

(** On a document without anchors the transformation is one visit of each
    entry. *)
Lemma transformMetadata_plain (entries : list Metadata.token) :
  identifiers entries = true →
  ∃ d',
    transformMetadata (Document.plain (Metadata.Make (Some entries))) = inr d'
    ∧ Document.read d'
      = Metadata.Make (Some (map (visit (literal entries)) entries)).
Proof.
  intros Hids. set (d := Document.plain (Metadata.Make (Some entries))).
  assert (Document.entries d (seq 0 (length entries)) = entries) as Hentries.
  { pose proof (read_plain (Metadata.Make (Some entries))) as E.
    unfold Document.read in E. by injection E. }
  destruct (plain_separate entries) as [Hrefs Hroles]. fold d in Hroles.
  eexists. split.
  - apply (transformMetadata_loop d (seq 0 (length entries))); [done|].
    by rewrite Hentries.
  - unfold Document.read. rewrite loop_tokens.
    change (Document.tokens d) with (Some (seq 0 (length entries))).
    cbn [fmap option_fmap option_map].
    rewrite loop_entries by done. by rewrite Hentries.
Qed.

(** X12.  Where no token object is listed twice and no [role] array is
    held by two listed objects, the loop that writes into the document does
    what a map over the entries does: the transformed document reads as the
    sequence of the entries, each visited once (its role texts rewritten
    once, its alias formatted once if truthy), names being identifiers. *)
Theorem transformMetadata_visits_once (d : Document.t) (refs : list nat) :
  Document.tokens d = Some refs →
  identifiers (Document.entries d refs) = true →
  NoDup refs →
  NoDup (Document.roles d refs) →
  ∃ d',
    transformMetadata d = inr d'
    ∧ Document.read d'
      = Metadata.Make
          (Some (map (visit (literal (Document.entries d refs)))
                     (Document.entries d refs))).
Proof.
  intros Htokens Hids Hrefs Hroles. eexists.
  split; [by apply transformMetadata_loop|].
  unfold Document.read. rewrite loop_tokens, Htokens. cbn.
  by rewrite loop_entries.
Qed.

(** X13.  What the transformation writes, sharing or not, for names that
    are identifiers: the sequence is left as it is; a token object has had
    its alias formatted once for each place of the sequence that holds it,
    and nothing else of it has changed; a [role] array has been rewritten
    once for each place of the sequence whose object holds it.  Objects and
    arrays that the sequence does not reach are left alone. *)
Theorem transformMetadata_writes_per_place (d : Document.t) (refs : list nat) :
  Document.tokens d = Some refs →
  identifiers (Document.entries d refs) = true →
  ∃ d',
    transformMetadata d = inr d'
    ∧ Document.tokens d' = Some refs
    ∧ (∀ ref,
         Document.objects d' !! ref
         = (λ token,
              Document.Object (Document.name token) (Document.role token)
                (Nat.iter (visits refs ref) (fmap formatAlias) (Document.alias token))
                (Document.deprecated token))
           <$> Document.objects d !! ref)
    ∧ (∀ array,
         Document.arrays d' !! array
         = map (Nat.iter (rewrites d refs array) (literal (Document.entries d refs)))
           <$> Document.arrays d !! array).
Proof.
  intros Htokens Hids. eexists. split; [by apply transformMetadata_loop|].
  split; [by rewrite loop_tokens|]. split.
  - intros ref. rewrite loop_objects.
    destruct (Document.objects d !! ref) as [token|]; [|done].
    cbn. by rewrite iter_visit_object.
  - intros array. rewrite loop_arrays.
    destruct (Document.arrays d !! array) as [texts|]; [|done].
    cbn. by rewrite iter_map.
Qed.

End Sharing.

(** ** The further properties on concrete runs *)

(** X1 on the scenario: the run leaves [package.json] as it was. *)
Lemma main_touches_only_artifacts_witness :
  files (@main Scenario.scenario Scenario.stale).2 !! "/packages/themes/package.json"
  = files Scenario.stale !! "/packages/themes/package.json".
Proof.
  apply (@main_touches_only_artifacts Scenario.scenario Scenario.stale);
    intros E; vm_compute in E; discriminate E.
Defined.

(** X3 on the scenario: the theme-maps file holds the text built. *)
Lemma clean_run_witness :
  files (@main Scenario.scenario Scenario.fresh).2
    !! "/packages/themes/scss/_theme-maps.scss"
  = Some (@themeMapsFile Scenario.scenario).
Proof.
  refine (proj2 (proj2 (proj2
    (@clean_run Scenario.scenario Scenario.fresh "tokens: [...]"
       (Document.plain Scenario.metadata)
       (Document.plain Scenario.transformed)
       _ _ _ _ _ _ _ _ _ _ _ _ _)))).
  - reflexivity.
  - reflexivity.
  - reflexivity.
  - apply (bool_decide_unpack _). reflexivity.
  - apply (bool_decide_unpack _). reflexivity.
  - apply (bool_decide_unpack _). reflexivity.
  - apply (bool_decide_unpack _). reflexivity.
  - reflexivity.
  - reflexivity.
  - reflexivity.
Defined.

(** X4 on the scenario when [ensureDir] is refused: the error is printed
    and nothing else happens. *)
Lemma write_failure_aborts_witness :
  @main Scenario.scenario
    (World {[ "/packages/themes/metadata.yml" := "tokens: [...]" ]}
           {[ "/packages/themes/scss" ]} [])
  = (inr tt,
     World {[ "/packages/themes/metadata.yml" := "tokens: [...]" ]}
           {[ "/packages/themes/scss" ]}
           [reporter_info "Building scss files for themes...";
            console_error (EACCES "/packages/themes/scss")]).
Proof.
  refine (proj1 (@write_failure_aborts Scenario.scenario
                   (World {[ "/packages/themes/metadata.yml" := "tokens: [...]" ]}
                          {[ "/packages/themes/scss" ]} [])
                   (World {[ "/packages/themes/metadata.yml" := "tokens: [...]" ]}
                          {[ "/packages/themes/scss" ]}
                          [reporter_info "Building scss files for themes..."])
                   _ _) _).
  - reflexivity.
  - apply (bool_decide_unpack _). reflexivity.
Defined.

(** X5 on the scenario: the run reports success, so the token file is
    there. *)
Lemma success_means_complete_witness :
  is_Some (files (@main Scenario.scenario Scenario.fresh).2
             !! "/packages/themes/scss/_tokens.scss").
Proof.
  destruct (@success_means_complete Scenario.scenario Scenario.fresh "Done! 🎉")
    as (metadata & w' & tokens & mixins & maps & _ & _ & _ & _ & _ & Htokens & _).
  - apply list_elem_of_In. vm_compute. do 8 right. left. reflexivity.
  - exists tokens. exact Htokens.
Defined.

(** X6 on the scenario: a role text that names no token is kept. *)
Lemma role_text_kept_iff_witness :
  Regex.replace
    (namesRegEx
       [Metadata.Token "interactive01" (Some ["Primary background"]) None false])
    (@replacer Scenario.scenario
       [Metadata.Token "interactive01" (Some ["Primary background"]) None false])
    "Primary background"
  = "Primary background".
Proof.
  apply (@role_text_kept_iff Scenario.scenario
           [Metadata.Token "interactive01" (Some ["Primary background"]) None false]).
  - discriminate.
  - reflexivity.
  - intros name [<-|[]]. reflexivity.
Defined.


(** X8 on the scenario with a second entry for [interactive01]. *)
Lemma duplicate_entry_dead_witness :
  ∃ d1 d2,
    @transformMetadata Scenario.scenario
      (Document.Make (Some [0; 1])
         [Document.Object "interactive01" (Some 0) None false;
          Document.Object "interactive01" (Some 1) (Some "brand01") true]
         [["supports interactive01 state"]; ["Second description"]])
      = inr d1
    ∧ @transformMetadata Scenario.scenario
        (Document.Make (Some [0])
           [Document.Object "interactive01" (Some 0) None false;
            Document.Object "interactive01" (Some 1) (Some "brand01") true]
           [["supports interactive01 state"]; ["Second description"]])
      = inr d2
    ∧ ∀ path, @source_of Scenario.scenario (Document.read d1) path
              = @source_of Scenario.scenario (Document.read d2) path.
Proof.
  destruct (@duplicate_entry_dead Scenario.scenario
              (Document.Make (Some [0; 1])
                 [Document.Object "interactive01" (Some 0) None false;
                  Document.Object "interactive01" (Some 1) (Some "brand01") true]
                 [["supports interactive01 state"]; ["Second description"]])
              [0] [] 1 0
              (Document.Object "interactive01" (Some 1) (Some "brand01") true)
              (Document.Object "interactive01" (Some 0) None false))
    as (d1 & d2 & E1 & E2 & _ & Hsame).
  - reflexivity.
  - reflexivity.
  - apply (bool_decide_unpack _). reflexivity.
  - apply (bool_decide_unpack _). reflexivity.
  - reflexivity.
  - apply (bool_decide_unpack _). reflexivity.
  - reflexivity.
  - reflexivity.
  - exists d1, d2. split; [exact E1|]. split; [exact E2|exact Hsame].
Defined.

(** X9 on the scenario: an entry with an empty alias and nothing else. *)
Lemma bare_entries_leave_no_trace_witness :
  @tokensFile Scenario.scenario
    (Metadata.Make (Some [Metadata.Token "interactive01" None (Some EmptyString) false]))
  = @tokensFile Scenario.scenario Metadata.empty.
Proof.
  apply (@bare_entries_leave_no_trace Scenario.scenario).
  intros entry [<-|[]]. repeat split.
Defined.

(** X10 on the scenario. *)
Lemma transformMetadata_keeps_one_line_witness :
  ∃ d',
    @transformMetadata Scenario.scenario (Document.plain Scenario.metadata) = inr d'
    ∧ @one_line_metadata (Document.read d') = true.
Proof.
  destruct (@transformMetadata_keeps_one_line Scenario.scenario
              (Document.plain Scenario.metadata) [0])
    as (d' & Hresult & _ & Hone); try reflexivity.
  exists d'. split; [exact Hresult|]. apply Hone.
  apply (bool_decide_unpack _). reflexivity.
Defined.

(** X11 on the scenario, whose collection has a theme [white]. *)
Lemma default_theme_unchecked_witness :
  In "$carbon--theme--white: (" (variable_declarations (@themeMapsFile Scenario.scenario)).
Proof.
  destruct (@default_theme_unchecked Scenario.scenario) as [_ Hwhite].
  - apply (bool_decide_unpack _). reflexivity.
  - repeat constructor; apply (bool_decide_unpack _); reflexivity.
  - reflexivity.
  - apply Hwhite. left. reflexivity.
Defined.

(** X12 on the scenario. *)
Lemma transformMetadata_visits_once_witness :
  ∃ d',
    @transformMetadata Scenario.scenario (Document.plain Scenario.metadata) = inr d'
    ∧ Document.read d' = Scenario.transformed.
Proof.
  destruct (@transformMetadata_visits_once Scenario.scenario
              (Document.plain Scenario.metadata) [0])
    as (d' & Hresult & Hread).
  - reflexivity.
  - reflexivity.
  - apply (bool_decide_unpack _). reflexivity.
  - apply (bool_decide_unpack _). reflexivity.
  - exists d'. split; [exact Hresult|]. rewrite Hread. reflexivity.
Defined.

(** X13 on [anchored]: the one array is held by both objects and is
    rewritten twice. *)
Lemma transformMetadata_writes_per_place_witness :
  ∃ d',
    @transformMetadata Scenario.scenario Scenario.anchored = inr d'
    ∧ Document.arrays d' !! 0 = Some ["outline of `$`$focus``"].
Proof.
  destruct (@transformMetadata_writes_per_place Scenario.scenario
              Scenario.anchored [0; 1])
    as (d' & Hresult & _ & _ & Harrays).
  - reflexivity.
  - reflexivity.
  - exists d'. split; [exact Hresult|]. rewrite Harrays. reflexivity.
Defined.
